(** * Guardian message-queue layer: NatsService and JwtValidator

    A shallow embedding of [common/src/mq/nats-service.ts] and of the
    [JwtValidator] class it calls, with the properties of the protocol
    layer proved over it.

    Conventions of the embedding.
    - JavaScript values exchanged on the bus are terms of [JsVal].
    - A thrown value is an [Exn]; a computation that may throw returns a
      [Completion].
    - An [async] function that writes the tables of an instance only
      before its first [await] is run to completion: its [await]s are
      sequenced in program order, and the settlement of its promise is
      the [Completion] it returns. The reply listener reads the table of
      callbacks before its [await]s and writes it after them: it is cut
      at its [await]s, and the event loop resumes each of its runs
      separately, so that two deliveries interleave as they do in the
      runtime.
    - The transport, the codec, the [jsonwebtoken] package and the secret
      manager are collaborators: they appear as type classes and records
      whose operations are arbitrary.
    - Every externally visible action is appended to a trace of [Effect]s
      kept in the state, so that "was (not) called" can be stated. *)

From stdpp Require Import gmap strings list fin_maps pretty.
From Stdlib Require Import ZArith.

Open Scope Z_scope.
Open Scope string_scope.

(** ** JavaScript values *)

#[warnings="-register-all"]
Inductive JsVal : Type :=
| VUndefined
| VNull
| VBool (b : bool)
| VNum (n : Z)
| VStr (s : string)
| VObj (fields : list (string * JsVal)).

(** [!v] is [negb (truthy v)]. *)
Definition truthy (v : JsVal) : bool :=
  match v with
  | VUndefined | VNull => false
  | VBool b => b
  | VNum n => negb (Z.eqb n 0)
  | VStr s => negb (String.eqb s "")
  | VObj _ => true
  end.

(** Own property of an object literal; a later binding of a key wins. *)
Fixpoint own_field (k : string) (fs : list (string * JsVal)) : option JsVal :=
  match fs with
  | [] => None
  | (k', v) :: rest =>
      match own_field k rest with
      | Some w => Some w
      | None => if String.eqb k k' then Some v else None
      end
  end.

(** Thrown values. [ErrorObj] is [new Error(message)]; [MessageError] is the
    class declared at the top of nats-service.ts; [ForbiddenException] is
    NestJS's; [TypeError] is what the runtime throws on a member access on
    [undefined] or [null]; [Raised] is any other thrown or rejected value
    (a collaborator's error, or a bare value passed to [reject]). *)
Inductive Exn : Type :=
| ErrorObj (message : string)
| MessageError (message : JsVal) (code : JsVal)
| ForbiddenException
| TypeError
| Raised (v : JsVal).

Inductive Completion (A : Type) : Type :=
| Return (a : A)
| Throw (e : Exn).
Arguments Return {A} a.
Arguments Throw {A} e.

(** [v.k]: throws on [undefined] and [null], is [undefined] on a primitive. *)
Definition member (v : JsVal) (k : string) : Completion JsVal :=
  match v with
  | VUndefined | VNull => Throw TypeError
  | VObj fs => Return (default VUndefined (own_field k fs))
  | _ => Return VUndefined
  end.

(** [v?.k]. *)
Definition opt_member (v : JsVal) (k : string) : JsVal :=
  match v with
  | VObj fs => default VUndefined (own_field k fs)
  | _ => VUndefined
  end.

(** [a !== b] is [negb (strict_eq a b)]. The two operands compared in this
    code base come out of two separate parses, so two objects are never the
    same reference. *)
Definition strict_eq (a b : JsVal) : bool :=
  match a, b with
  | VUndefined, VUndefined => true
  | VNull, VNull => true
  | VBool x, VBool y => Bool.eqb x y
  | VNum x, VNum y => Z.eqb x y
  | VStr x, VStr y => String.eqb x y
  | _, _ => false
  end.

(** The string a template literal inserts for [${v}]. *)
Definition to_string (v : JsVal) : string :=
  match v with
  | VUndefined => "undefined"
  | VNull => "null"
  | VBool true => "true"
  | VBool false => "false"
  | VNum n => pretty n
  | VStr s => s
  | VObj _ => "[object Object]"
  end.

(** [e.message] of a caught value. [new Error(m)] has the message
    [String(m)], and the empty message for [undefined]; the text of a
    [TypeError] is the engine's. *)
Definition exn_message (e : Exn) : JsVal :=
  match e with
  | ErrorObj m => VStr m
  | MessageError VUndefined _ => VStr ""
  | MessageError m _ => VStr (to_string m)
  | ForbiddenException => VStr "Forbidden"
  | TypeError => VStr "Cannot read properties of undefined"
  | Raised v => opt_member v "message"
  end.

(** ** Collaborators *)

(** The codec ([ZipCodec]): both directions may throw. *)
Class Codec : Type := {
  Bytes : Type;
  encode : JsVal -> Completion Bytes;
  decode : Bytes -> Completion JsVal
}.

(** The [jsonwebtoken] package: [jwt.sign(payload, key, {algorithm})],
    [jwt.decode(token)] (the payload, or [null]), and
    [jwt.verify(token, key, {algorithms})] (the payload, or throws). *)
Class Jwt : Type := {
  jwt_sign : JsVal -> string -> Completion string;
  jwt_decode : string -> JsVal;
  jwt_verify : string -> string -> Completion JsVal
}.

(** The environment variable [process.env.SERVICE_CHANNEL]. *)
Class ProcessEnv : Type := {
  SERVICE_CHANNEL : string
}.

(** Modelled from the spec: the secret manager ([SecretManagerBase] is not
    part of the sources). [getSecrets path] is the mapping of field to value
    stored under [path], or nothing. *)
Record SecretManager : Type := {
  getSecrets : string -> option (gmap string string)
}.

(** [!sec?.FIELD]: true when the field is absent or the empty string. *)
Definition secret_field (sec : option (gmap string string)) (f : string) : option string :=
  match sec with
  | Some m =>
      match m !! f with
      | Some v => if String.eqb v "" then None else Some v
      | None => None
      end
  | None => None
  end.

(** ** JwtValidator *)

Module JwtValidator.
Section JwtValidator.
Context `{Jwt} `{ProcessEnv}.

(** [loadPrivateKey(mgr)]; the static field [privateKey] is threaded as
    state. *)
Definition loadPrivateKey (mgr : SecretManager) (privateKey : option string)
  : Completion string * option string :=
  let unset := match privateKey with Some k => String.eqb k "" | None => true end in
  if unset then
    match secret_field (getSecrets mgr ("secretkey/jwt-service/" ++ SERVICE_CHANNEL))
                       "SERVICE_JWT_SECRET_KEY" with
    | None => (Throw (ErrorObj ("JWTValidator: no privateKey at secretkey/jwt-service/"
                                  ++ SERVICE_CHANNEL)), privateKey)
    | Some k' => (Return k', Some k')
    end
  else (Return (default "" privateKey), privateKey).

(** [sign(mgr)]. *)
Definition sign (mgr : option SecretManager) (privateKey : option string)
  : Completion string * option string :=
  match mgr with
  | None => (Return "", privateKey)
  | Some m =>
      match loadPrivateKey m privateKey with
      | (Throw e, pk) => (Throw e, pk)
      | (Return key, pk) =>
          (jwt_sign (VObj [("sub", VStr SERVICE_CHANNEL)]) key, pk)
      end
  end.

(** The [try] block of [verify]: any exception in it is replaced by the
    one generic error of the [catch]. *)
Definition verify_signature (token key : string) (signer : JsVal) : Completion JsVal :=
  let attempt :=
    match jwt_verify token key with
    | Throw e => Throw e
    | Return payload =>
        match member payload "sub" with
        | Throw e => Throw e
        | Return sub =>
            if negb (strict_eq sub signer)
            then Throw (ErrorObj "JWTValidator: sub mismatch")
            else Return signer
        end
    end in
  match attempt with
  | Return v => Return v
  | Throw _ => Throw (ErrorObj "JWTValidator: invalid or expired token")
  end.

(** [verify(token, mgr)]. A missing header reads as the empty string. *)
Definition verify (token : string) (mgr : option SecretManager) : Completion JsVal :=
  match mgr with
  | None => Return (VStr "")
  | Some m =>
      if String.eqb token "" then Return (VStr "")
      else
        let decoded := jwt_decode token in
        let signer := opt_member decoded "sub" in
        if negb (truthy signer) then Throw (ErrorObj "JWTValidator: missing sub claim")
        else
          match secret_field (getSecrets m ("publickey/jwt-service/" ++ to_string signer))
                             "SERVICE_JWT_PUBLIC_KEY" with
          | None => Throw (ErrorObj ("JWTValidator: no publicKey at publickey/jwt-service/"
                                       ++ to_string signer))
          | Some key => verify_signature token key signer
          end
  end.

End JwtValidator.
End JwtValidator.

(** ** NatsService: data *)

(** NATS message headers ([MsgHdrs]): an ordered list of key/value pairs;
    [get] is the first value under the key, or the empty string. *)
Abbreviation Headers := (list (string * string)).

Fixpoint hdr_get (h : Headers) (k : string) : string :=
  match h with
  | [] => ""
  | (k', v) :: rest => if String.eqb k' k then v else hdr_get rest k
  end.

(** White space as [String.prototype.trim] removes it, among the
    characters below 256: the codes 9 to 13, the space and the no-break
    space. *)
Definition is_space (a : Ascii.ascii) : bool :=
  let n := Ascii.nat_of_ascii a in
  (Nat.leb 9 n && Nat.leb n 13) || Nat.eqb n 32 || Nat.eqb n 160.

Fixpoint trim_start (s : string) : string :=
  match s with
  | String a rest => if is_space a then trim_start rest else s
  | EmptyString => s
  end.

Fixpoint trim_end (s : string) : string :=
  match s with
  | EmptyString => EmptyString
  | String a rest =>
      match trim_end rest with
      | EmptyString => if is_space a then EmptyString else String a EmptyString
      | kept => String a kept
      end
  end.

(** [s.trim()]. *)
Definition trim (s : string) : string := trim_end (trim_start s).

(** [/[\r\n]/.test(s)]. *)
Fixpoint has_line_break (s : string) : bool :=
  match s with
  | EmptyString => false
  | String a rest =>
      Nat.eqb (Ascii.nat_of_ascii a) 10 || Nat.eqb (Ascii.nat_of_ascii a) 13
      || has_line_break rest
  end.

(** The error of the transport for a header value with a line break
    ([NatsError] with the code [BAD_HEADER]). *)
Definition BadHeader : Exn :=
  Raised (VObj [("name", VStr "NatsError"); ("code", VStr "BAD_HEADER");
                ("message", VStr "invalid header value - \r and \n are not allowed.")]).

(** [h.append(k, v)] of the transport's [MsgHdrs], for a key that is a
    valid header name: a value with a carriage return or a line feed is
    refused, any other is stored trimmed. *)
Definition hdr_append (h : Headers) (k v : string) : Completion Headers :=
  if has_line_break v then Throw BadHeader else Return (h ++ [(k, trim v)])%list.

(** The three settlement states of a promise. *)
Inductive PState : Type :=
| Pending
| Fulfilled (v : JsVal)
| Rejected (e : Exn).

(** A promise of the store; [racers] are the [Promise.race] promises that
    follow its settlement. *)
Record Promise : Type := {
  pstate : PState;
  racers : list nat
}.

(** The two closures stored in [responseCallbacksMap], each capturing the
    [resolve] and [reject] of the promise its operation returned. *)
Inductive Callback : Type :=
| SendCallback (p : nat)
| RawCallback (p : nat).

Definition callback_promise (cb : Callback) : nat :=
  match cb with SendCallback p | RawCallback p => p end.

(** The closure passed to [setTimeout] in [sendMessageWithTimeout]. *)
Record Timer : Type := {
  t_messageId : string;
  t_subject : string;
  t_promise : nat;
  t_delay : Z
}.

(** The object passed as third argument of [connection.publish]. *)
Record PublishOptions : Type := {
  opt_serviceToken : option string;
  opt_reply : option string;
  opt_headers : option Headers
}.

(** Modelled from the spec: the transport connection ([NatsConnection] is
    not part of the sources). [publish_failure] is the error, if any, with
    which its [publish] fails (a closed connection, say). *)
Record Connection : Type := {
  publish_failure : option Exn
}.

(** A run of the reply listener that is suspended at one of its two
    [await]s, with what its local variables hold: at the first, the
    decoding of the payload is awaited; at the second, the verification
    of the token. *)
Inductive Suspended : Type :=
| AwaitDecode (messageId serviceToken : string) (fn : Callback)
    (decoding : Completion JsVal)
| AwaitVerify (messageId : string) (fn : Callback) (message : JsVal)
    (verification : Completion JsVal).

Definition run_id (r : Suspended) : string :=
  match r with
  | AwaitDecode messageId _ _ _ | AwaitVerify messageId _ _ _ => messageId
  end.

Definition run_fn (r : Suspended) : Callback :=
  match r with
  | AwaitDecode _ _ fn _ | AwaitVerify _ fn _ _ => fn
  end.

(** Arguments of [console.error]. *)
Inductive Logged : Type :=
| LogExn (e : Exn)
| LogVal (v : JsVal).

Section Data.
Context `{Codec}.

(** A message delivered by the transport. *)
Record Msg : Type := {
  msg_subject : string;
  msg_data : Bytes;
  msg_headers : option Headers;
  msg_reply : option string
}.

(** Modelled from the spec: what the transport puts on the wire for
    [publish(subject, bytes, {headers, replyTo?})]; it reads the [reply] and
    [headers] options and nothing else. *)
Definition envelope (subject : string) (payload : Bytes) (opts : PublishOptions) : Msg :=
  {| msg_subject := subject; msg_data := payload;
     msg_headers := opt_headers opts; msg_reply := opt_reply opts |}.

(** What a receiver reads with [msg.headers?.get(k)]. *)
Definition received_header (m : Msg) (k : string) : option string :=
  match msg_headers m with
  | Some h => Some (hdr_get h k)
  | None => None
  end.

(** Calls on collaborators and other observable actions, in order. *)
Inductive Effect : Type :=
| EPublish (subject : string) (payload : Bytes) (opts : PublishOptions)
| ERespond (request : Msg) (payload : Bytes) (hdrs : Headers)
| ESubscribe (subject : string) (queue : option string)
| EConsoleError (args : list Logged)
| ECallback (messageId : string) (cb : Callback) (body error code : JsVal)
| EHandler (payload : JsVal) (hdrs : option Headers)
| EVerify (token : string)
| EUnhandledRejection (e : Exn).

(** Which effects are the invocation of a stored callback, of the token
    verification, of a handler. *)
Definition is_callback (e : Effect) : bool :=
  match e with ECallback _ _ _ _ _ => true | _ => false end.

Definition is_verify (e : Effect) : bool :=
  match e with EVerify _ => true | _ => false end.

Definition is_handler (e : Effect) : bool :=
  match e with EHandler _ _ => true | _ => false end.

(** The fields of a [NatsService] instance, the static [privateKey] of
    [JwtValidator], and the runtime's promises, timers and suspended
    runs of the reply listener. *)
Record State : Type := {
  messageQueueName : string;
  replySubject : string;
  connection : option Connection;
  responseCallbacksMap : gmap string Callback;
  availableEvents : option (list string);
  secretManager : option SecretManager;
  privateKey : option string;
  promises : list Promise;
  timers : list (option Timer);
  suspended : list (option Suspended);
  trace : list Effect
}.

Definition set_connection (c : option Connection) (st : State) : State :=
  {| messageQueueName := messageQueueName st; replySubject := replySubject st;
     connection := c; responseCallbacksMap := responseCallbacksMap st;
     availableEvents := availableEvents st; secretManager := secretManager st;
     privateKey := privateKey st; promises := promises st; timers := timers st;
     suspended := suspended st; trace := trace st |}.

Definition set_callbacks (m : gmap string Callback) (st : State) : State :=
  {| messageQueueName := messageQueueName st; replySubject := replySubject st;
     connection := connection st; responseCallbacksMap := m;
     availableEvents := availableEvents st; secretManager := secretManager st;
     privateKey := privateKey st; promises := promises st; timers := timers st;
     suspended := suspended st; trace := trace st |}.

Definition set_availableEvents (l : option (list string)) (st : State) : State :=
  {| messageQueueName := messageQueueName st; replySubject := replySubject st;
     connection := connection st; responseCallbacksMap := responseCallbacksMap st;
     availableEvents := l; secretManager := secretManager st;
     privateKey := privateKey st; promises := promises st; timers := timers st;
     suspended := suspended st; trace := trace st |}.

Definition set_secretManager (m : option SecretManager) (st : State) : State :=
  {| messageQueueName := messageQueueName st; replySubject := replySubject st;
     connection := connection st; responseCallbacksMap := responseCallbacksMap st;
     availableEvents := availableEvents st; secretManager := m;
     privateKey := privateKey st; promises := promises st; timers := timers st;
     suspended := suspended st; trace := trace st |}.

Definition set_privateKey (k : option string) (st : State) : State :=
  {| messageQueueName := messageQueueName st; replySubject := replySubject st;
     connection := connection st; responseCallbacksMap := responseCallbacksMap st;
     availableEvents := availableEvents st; secretManager := secretManager st;
     privateKey := k; promises := promises st; timers := timers st;
     suspended := suspended st; trace := trace st |}.

Definition set_promises (ps : list Promise) (st : State) : State :=
  {| messageQueueName := messageQueueName st; replySubject := replySubject st;
     connection := connection st; responseCallbacksMap := responseCallbacksMap st;
     availableEvents := availableEvents st; secretManager := secretManager st;
     privateKey := privateKey st; promises := ps; timers := timers st;
     suspended := suspended st; trace := trace st |}.

Definition set_timers (ts : list (option Timer)) (st : State) : State :=
  {| messageQueueName := messageQueueName st; replySubject := replySubject st;
     connection := connection st; responseCallbacksMap := responseCallbacksMap st;
     availableEvents := availableEvents st; secretManager := secretManager st;
     privateKey := privateKey st; promises := promises st; timers := ts;
     suspended := suspended st; trace := trace st |}.

Definition set_suspended (rs : list (option Suspended)) (st : State) : State :=
  {| messageQueueName := messageQueueName st; replySubject := replySubject st;
     connection := connection st; responseCallbacksMap := responseCallbacksMap st;
     availableEvents := availableEvents st; secretManager := secretManager st;
     privateKey := privateKey st; promises := promises st; timers := timers st;
     suspended := rs; trace := trace st |}.

Definition set_trace (t : list Effect) (st : State) : State :=
  {| messageQueueName := messageQueueName st; replySubject := replySubject st;
     connection := connection st; responseCallbacksMap := responseCallbacksMap st;
     availableEvents := availableEvents st; secretManager := secretManager st;
     privateKey := privateKey st; promises := promises st; timers := timers st;
     suspended := suspended st; trace := t |}.

(** ** The monad of the embedding: state and exceptions *)

Definition M (A : Type) : Type := State -> Completion A * State.

Definition ret {A} (a : A) : M A := fun st => (Return a, st).

Definition throw {A} (e : Exn) : M A := fun st => (Throw e, st).

Definition bind {A B} (m : M A) (k : A -> M B) : M B :=
  fun st =>
    match m st with
    | (Return a, st') => k a st'
    | (Throw e, st') => (Throw e, st')
    end.

(** [try { m } catch (e) { h e }]. *)
Definition try_catch {A} (m : M A) (h : Exn -> M A) : M A :=
  fun st =>
    match m st with
    | (Return a, st') => (Return a, st')
    | (Throw e, st') => h e st'
    end.

Definition lift {A} (c : Completion A) : M A := fun st => (c, st).

Definition gets {A} (f : State -> A) : M A := fun st => (Return (f st), st).

Definition modify (f : State -> State) : M unit := fun st => (Return tt, f st).

Definition emit (e : Effect) : M unit :=
  modify (fun st => set_trace (trace st ++ [e]) st).

(** The effects that a computation adds to the trace of [st]. *)
Definition effects_of {A} (m : M A) (st : State) : list Effect :=
  drop (length (trace st)) (trace (snd (m st))).

End Data.

Declare Scope js_scope.
Delimit Scope js_scope with js.
Notation "'let!' x ':=' m 'in' k" := (bind m (fun x => k))
  (at level 10, x pattern, m at level 100, k at level 200) : js_scope.

(** ** NatsService: operations *)

Module NatsService.
Section NatsService.
Context `{Codec} `{Jwt} `{ProcessEnv}.
Open Scope js_scope.

(** *** Promises of the runtime *)

(** [new Promise(...)]: the fresh promise is the next index of the store. *)
Definition new_promise : M nat :=
  fun st => (Return (length (promises st)),
             set_promises (promises st ++ [{| pstate := Pending; racers := [] |}]) st).

(** Settling a promise that is already settled does nothing. *)
Definition settle_one (p : nat) (o : PState) (ps : list Promise) : list Promise :=
  match ps !! p with
  | Some P =>
      match pstate P with
      | Pending => <[p := {| pstate := o; racers := racers P |}]> ps
      | _ => ps
      end
  | None => ps
  end.

(** [resolve]/[reject] of promise [p]: it settles, and so does every race
    on it that is still pending. *)
Definition settle (p : nat) (o : PState) (ps : list Promise) : list Promise :=
  match ps !! p with
  | Some P =>
      match pstate P with
      | Pending => foldr (fun r acc => settle_one r o acc) (settle_one p o ps) (racers P)
      | _ => ps
      end
  | None => ps
  end.

Definition state_of (ps : list Promise) (p : nat) : option PState :=
  pstate <$> ps !! p.

Definition add_racer (r : nat) (p : nat) (ps : list Promise) : list Promise :=
  match ps !! p with
  | Some P => <[p := {| pstate := pstate P; racers := r :: racers P |}]> ps
  | None => ps
  end.

(** [Promise.race([p1, p2])]. *)
Definition race (p1 p2 : nat) : M nat :=
  fun st =>
    let ps := promises st in
    let r := length ps in
    let start :=
      match state_of ps p1, state_of ps p2 with
      | Some Pending, Some o => o
      | Some o, _ => o
      | None, Some o => o
      | None, None => Pending
      end in
    (Return r,
     set_promises (add_racer r p2 (add_racer r p1 (ps ++ [{| pstate := start; racers := [] |}]))) st).

(** Applying a stored closure to [(body, error, code)]. *)
Definition apply_callback (cb : Callback) (body error code : JsVal)
  (ps : list Promise) : list Promise :=
  match cb with
  | SendCallback p =>
      if truthy error then settle p (Rejected (MessageError error code)) ps
      else settle p (Fulfilled body) ps
  | RawCallback p =>
      if truthy error then settle p (Rejected (Raised error)) ps
      else settle p (Fulfilled body) ps
  end.

(** [fn(body, error, code)] for the closure found under [messageId]. *)
Definition call (messageId : string) (fn : Callback) (body error code : JsVal) : M unit :=
  let! _ := emit (ECallback messageId fn body error code) in
  modify (fun st => set_promises (apply_callback fn body error code (promises st)) st).

(** *** Calls on JwtValidator and on the collaborators *)

Definition sign : M string :=
  fun st =>
    match JwtValidator.sign (secretManager st) (privateKey st) with
    | (r, pk) => (r, set_privateKey pk st)
    end.

Definition verify (token : string) : M JsVal :=
  let! _ := emit (EVerify token) in
  let! mgr := gets secretManager in
  lift (JwtValidator.verify token mgr).

(** [this.connection.publish]: the member access throws on an unset
    connection. *)
Definition the_connection : M Connection :=
  let! c := gets connection in
  match c with
  | Some cn => ret cn
  | None => throw TypeError
  end.

Definition connection_publish (cn : Connection) (subject : string)
  (payload : Bytes) (opts : PublishOptions) : M unit :=
  match publish_failure cn with
  | Some e => throw e
  | None => emit (EPublish subject payload opts)
  end.

(** [this.availableEvents && !this.availableEvents.includes(subject)]. *)
Definition not_available (st : State) (subject : string) : bool :=
  match availableEvents st with
  | Some l => negb (bool_decide (subject ∈ l))
  | None => false
  end.

(** *** Configuration *)

Definition configureAvailableEvents (l : list string) : M unit :=
  modify (set_availableEvents (Some l)).

(** The spread of an unset list throws. *)
Definition addAdditionalAvailableEvents (l : list string) : M unit :=
  let! cur := gets availableEvents in
  match cur with
  | Some a => modify (set_availableEvents (Some (a ++ l)%list))
  | None => throw TypeError
  end.

Definition configureSecretManager (m : option SecretManager) : M unit :=
  modify (set_secretManager m).

Definition setConnection (cn : Connection) : M unit :=
  modify (set_connection (Some cn)).

(** *** The reply listener *)

(** The callback that [init] subscribes on [replySubject], run from its
    call to its end with nothing else in between. *)
Definition init_callback (error : option Exn) (msg : Msg) : M unit :=
  match error with
  | Some err => emit (EConsoleError [LogExn err])
  | None =>
      match msg_headers msg with
      | None => throw TypeError
      | Some h =>
          let messageId := hdr_get h "messageId" in
          let serviceToken := hdr_get h "serviceToken" in
          let! fn := gets (fun st => responseCallbacksMap st !! messageId) in
          match fn with
          | Some fn =>
              let! message := lift (decode (msg_data msg)) in
              let! _ :=
                if negb (truthy message) then call messageId fn VNull VUndefined VUndefined
                else
                  try_catch
                    (let! _ := verify serviceToken in
                     let! body := lift (member message "body") in
                     let! error := lift (member message "error") in
                     let! code := lift (member message "code") in
                     call messageId fn body error code)
                    (fun e =>
                       let! _ := emit (EConsoleError
                                         [LogVal (VStr "Reply validation failed:");
                                          LogVal (exn_message e)]) in
                       call messageId fn VNull (exn_message e) (VNum 401)) in
              modify (fun st => set_callbacks (delete messageId (responseCallbacksMap st)) st)
          | None => ret tt
          end
      end
  end.

(** The same callback cut at its [await]s. From its call to the first
    [await]: the run that is then suspended, if it comes that far. *)
Definition init_callback_begin (error : option Exn) (msg : Msg) : M (option Suspended) :=
  match error with
  | Some err =>
      let! _ := emit (EConsoleError [LogExn err]) in
      ret None
  | None =>
      match msg_headers msg with
      | None => throw TypeError
      | Some h =>
          let messageId := hdr_get h "messageId" in
          let serviceToken := hdr_get h "serviceToken" in
          let! fn := gets (fun st => responseCallbacksMap st !! messageId) in
          match fn with
          | Some fn =>
              ret (Some (AwaitDecode messageId serviceToken fn (decode (msg_data msg))))
          | None => ret None
          end
      end
  end.

(** From one [await] to the next, or to the end of the callback. The
    secret manager is read when [verify] is called, after the payload
    is decoded. *)
Definition init_callback_resume (r : Suspended) : M (option Suspended) :=
  match r with
  | AwaitDecode messageId serviceToken fn decoding =>
      let! message := lift decoding in
      if negb (truthy message) then
        let! _ := call messageId fn VNull VUndefined VUndefined in
        let! _ := modify (fun st =>
                    set_callbacks (delete messageId (responseCallbacksMap st)) st) in
        ret None
      else
        let! _ := emit (EVerify serviceToken) in
        let! mgr := gets secretManager in
        ret (Some (AwaitVerify messageId fn message
                     (JwtValidator.verify serviceToken mgr)))
  | AwaitVerify messageId fn message verification =>
      let! _ :=
        try_catch
          (let! _ := lift verification in
           let! body := lift (member message "body") in
           let! error := lift (member message "error") in
           let! code := lift (member message "code") in
           call messageId fn body error code)
          (fun e =>
             let! _ := emit (EConsoleError
                               [LogVal (VStr "Reply validation failed:");
                                LogVal (exn_message e)]) in
             call messageId fn VNull (exn_message e) (VNum 401)) in
      let! _ := modify (fun st =>
                  set_callbacks (delete messageId (responseCallbacksMap st)) st) in
      ret None
  end.

(** A delivery on the reply subject: the listener runs to its first
    [await] and is suspended there. *)
Definition deliver (error : option Exn) (msg : Msg) : M unit :=
  let! r := init_callback_begin error msg in
  match r with
  | Some r => modify (fun st => set_suspended (suspended st ++ [Some r]) st)
  | None => ret tt
  end.

(** The runtime resumes the suspended run [n] of the listener, which
    goes on to its next [await] or to its end. *)
Definition resume (n : nat) : M unit :=
  let! rs := gets suspended in
  match rs !! n with
  | Some (Some r) =>
      let! _ := modify (fun st => set_suspended (<[n := None]> (suspended st)) st) in
      let! next := init_callback_resume r in
      match next with
      | Some r' => modify (fun st => set_suspended (<[n := Some r']> (suspended st)) st)
      | None => ret tt
      end
  | _ => ret tt
  end.

(** [init()]. *)
Definition init : M unit :=
  let! c := gets connection in
  match c with
  | None => throw (ErrorObj "Connection must set first")
  | Some _ =>
      let! subject := gets replySubject in
      emit (ESubscribe subject None)
  end.

(** *** Sending *)

(** What the fallible steps of a send come to in state [st], in the order
    the code takes them (sign, the connection member, encode, the
    transport's publish): the error of the first that fails, or the token
    and the encoded payload. *)
Definition attempt (st : State) (data : JsVal) : Exn + string * Bytes :=
  match fst (JwtValidator.sign (secretManager st) (privateKey st)) with
  | Throw e => inl e
  | Return token =>
      match connection st with
      | None => inl TypeError
      | Some cn =>
          match encode data with
          | Throw e => inl e
          | Return payload =>
              match publish_failure cn with
              | Some e => inl e
              | None => inr (token, payload)
              end
          end
      end
  end.

(** The private key cache after a call of [sign] in state [st]. *)
Definition key_cache (st : State) : option string :=
  snd (JwtValidator.sign (secretManager st) (privateKey st)).

(** [publish(subject, data, replySubject)]. *)
Definition publish (subject : string) (data : JsVal) (reply : option string) : M unit :=
  let! token := sign in
  let opts := {| opt_serviceToken := Some token;
                 opt_reply := match reply with
                              | Some r => if String.eqb r "" then None else Some r
                              | None => None
                              end;
                 opt_headers := None |} in
  let! cn := the_connection in
  let! payload := lift (encode data) in
  connection_publish cn subject payload opts.

(** What the fallible steps of [sendMessage] and [sendRawMessage] after
    the registration come to in state [st]: as for [publish], with the
    token added to the headers once it is signed. *)
Definition attempt_send (st : State) (data : JsVal) (head : Headers)
  : Exn + Headers * Bytes :=
  match fst (JwtValidator.sign (secretManager st) (privateKey st)) with
  | Throw e => inl e
  | Return token =>
      match hdr_append head "serviceToken" token with
      | Throw e => inl e
      | Return head =>
          match connection st with
          | None => inl TypeError
          | Some cn =>
              match encode data with
              | Throw e => inl e
              | Return payload =>
                  match publish_failure cn with
                  | Some e => inl e
                  | None => inr (head, payload)
                  end
              end
          end
      end
  end.

(** The part of the two executors after the registration of the
    callback: sign, add the header, encode, publish. *)
Definition sign_and_publish (subject : string) (data : JsVal) (head : Headers) : M unit :=
  let! token := sign in
  let! head := lift (hdr_append head "serviceToken" token) in
  let! cn := the_connection in
  let! payload := lift (encode data) in
  let! reply := gets replySubject in
  connection_publish cn subject payload
    {| opt_serviceToken := None; opt_reply := Some reply; opt_headers := Some head |}.

(** An [async] executor of [new Promise]: what it throws is nobody's to
    catch. *)
Definition run_executor (m : M unit) : M unit :=
  try_catch m (fun e => emit (EUnhandledRejection e)).

(** [sendMessage(subject, data, isResponseCallback, externalMessageId)];
    [uuid] is what [GenerateUUIDv4()] returns at this call. *)
Definition sendMessage (subject : string) (data : JsVal) (isResponseCallback : bool)
  (externalMessageId : option string) (uuid : string) : M nat :=
  let messageId := default uuid externalMessageId in
  let! p := new_promise in
  let! _ := run_executor
    (let! head := lift (hdr_append [] "messageId" messageId) in
     let! _ :=
       if isResponseCallback
       then modify (fun st => set_callbacks (<[messageId := SendCallback p]> (responseCallbacksMap st)) st)
       else modify (fun st => set_promises (settle p (Fulfilled VNull) (promises st)) st) in
     sign_and_publish subject data head) in
  ret p.

(** The instance after the synchronous part of the executor of
    [sendMessage]: a fresh promise, registered or resolved at once. *)
Definition prepared (isResponseCallback : bool) (messageId : string) (st : State) : State :=
  let p := length (promises st) in
  let ps := (promises st ++ [{| pstate := Pending; racers := [] |}])%list in
  if isResponseCallback
  then set_callbacks (<[messageId := SendCallback p]> (responseCallbacksMap st))
         (set_promises ps st)
  else set_promises (settle p (Fulfilled VNull) ps) (set_promises ps st).

(** The instance after the executor of a send that registered or
    resolved and then came to [r]. *)
Definition sent_state (st registered : State) (subject : string)
  (r : Exn + Headers * Bytes) : State :=
  match r with
  | inl e =>
      set_trace (trace st ++ [EUnhandledRejection e])
        (set_privateKey (key_cache st) registered)
  | inr (head, payload) =>
      set_trace (trace st ++
                 [EPublish subject payload
                    {| opt_serviceToken := None;
                       opt_reply := Some (replySubject st);
                       opt_headers := Some head |}])
        (set_privateKey (key_cache st) registered)
  end.

(** [sendRawMessage(subject, data)]. *)
Definition sendRawMessage (subject : string) (data : JsVal) (uuid : string) : M nat :=
  let messageId := uuid in
  let! p := new_promise in
  let! _ := run_executor
    (let! head := lift (hdr_append [] "messageId" messageId) in
     let! _ := modify (fun st => set_callbacks (<[messageId := RawCallback p]> (responseCallbacksMap st)) st) in
     sign_and_publish subject data head) in
  ret p.

(** [sendMessageWithTimeout(subject, timeout, data)]. *)
Definition sendMessageWithTimeout (subject : string) (timeout : Z) (data : JsVal)
  (uuid : string) : M nat :=
  let messageId := uuid in
  let! messagePromise := sendMessage subject data true (Some messageId) uuid in
  let! timeoutPromise := new_promise in
  let! _ := modify (fun st => set_timers
              (timers st ++ [Some {| t_messageId := messageId; t_subject := subject;
                                     t_promise := timeoutPromise; t_delay := timeout |}]) st) in
  race messagePromise timeoutPromise.

(** The timer callback of [sendMessageWithTimeout]; a timer fires once. *)
Definition fire_timer (n : nat) : M unit :=
  let! ts := gets timers in
  match ts !! n with
  | Some (Some t) =>
      let! _ := modify (set_timers (<[n := None]> ts)) in
      let! _ := modify (fun st => set_callbacks (delete (t_messageId t) (responseCallbacksMap st)) st) in
      modify (fun st => set_promises
                (settle (t_promise t)
                   (Rejected (ErrorObj ("Timeout exceed (" ++ t_subject t ++ ")")))
                   (promises st)) st)
  | _ => ret tt
  end.

(** *** Receiving *)

(** A handler passed as [cb]: called with the decoded payload and the
    headers, it returns a value or throws. *)
Definition Handler : Type := JsVal -> option Headers -> Completion JsVal.

Definition call_handler (cb : Handler) (payload : JsVal) (hdrs : option Headers) : M JsVal :=
  let! _ := emit (EHandler payload hdrs) in
  lift (cb payload hdrs).

(** The double quote of the message of [subscribe]. *)
Definition dquote : string := String (Ascii.ascii_of_nat 34) "".

(** [subscribe(subject, cb)]: the check and the subscription. *)
Definition subscribe (subject : string) : M unit :=
  let! denied := gets (fun st => not_available st subject) in
  if denied
  then throw (ErrorObj ("NATS ACL: subscription to " ++ dquote ++ subject ++ dquote
                          ++ " not allowed"))
  else
    let! _ := the_connection in
    emit (ESubscribe subject None).

(** The body of the [for await] loop of [subscribe], for one message. *)
Definition subscribe_callback (cb : Handler) (m : Msg) : M unit :=
  try_catch
    (match msg_headers m with
     | None => throw TypeError
     | Some h =>
         let serviceToken := hdr_get h "serviceToken" in
         let! _ := verify serviceToken in
         let! data := lift (decode (msg_data m)) in
         let! _ := call_handler cb data None in
         ret tt
     end)
    (fun e => emit (EConsoleError [LogVal (exn_message e)])).

(** The object encoded for a subject that is not available. *)
Definition forbidden_response : JsVal :=
  VObj [("body", VNull); ("error", VStr "Forbidden"); ("code", VNum 403);
        ("name", VStr "Forbidden"); ("message", VStr "Forbidden")].

Definition respond (msg : Msg) (payload : Bytes) (head : Headers) : M unit :=
  emit (ERespond msg payload head).

(** [head] of the callback of [getMessages]: the [messageId] of the
    request, if it has one. *)
Definition response_head (msg : Msg) : Completion Headers :=
  let messageId := default "" (received_header msg "messageId") in
  if String.eqb messageId "" then Return [] else hdr_append [] "messageId" messageId.

(** The [try] block of the callback of [getMessages]. *)
Definition getMessages_try (subject : string) (cb : Handler) (noRespond : bool)
  (msg : Msg) : M unit :=
  let serviceToken := default "" (received_header msg "serviceToken") in
  let! head := lift (response_head msg) in
  let! denied := gets (fun st => not_available st subject) in
  if denied then
    if negb noRespond then
      let! payload := lift (encode forbidden_response) in
      respond msg payload head
    else throw ForbiddenException
  else
    let! _ := verify serviceToken in
    if negb noRespond then
      let! data := lift (decode (msg_data msg)) in
      let! result := call_handler cb data (msg_headers msg) in
      let! payload := lift (encode result) in
      respond msg payload head
    else
      let! data := lift (decode (msg_data msg)) in
      let! _ := call_handler cb data (msg_headers msg) in
      ret tt.

(** The callback that [getMessages(subject, cb, noRespond)] subscribes. *)
Definition getMessages_callback (subject : string) (cb : Handler) (noRespond : bool)
  (msg : Msg) : M unit :=
  try_catch (getMessages_try subject cb noRespond msg)
            (fun error => emit (EConsoleError [LogExn error])).

(** [getMessages(subject, cb, noRespond)]: the subscription itself. *)
Definition getMessages (subject : string) : M unit :=
  let! _ := the_connection in
  let! queue := gets messageQueueName in
  emit (ESubscribe subject (Some queue)).

(** *** The event loop *)

(** What can happen to an instance: a call of its interface, a delivery
    by the transport, the resumption of a run of the reply listener, a
    timer. *)
Inductive Event : Type :=
| CallConfigureAvailableEvents (l : list string)
| CallAddAdditionalAvailableEvents (l : list string)
| CallConfigureSecretManager (m : option SecretManager)
| CallSetConnection (cn : Connection)
| CallInit
| CallPublish (subject : string) (data : JsVal) (reply : option string)
| CallSubscribe (subject : string)
| CallGetMessages (subject : string)
| CallSendMessage (subject : string) (data : JsVal) (isResponseCallback : bool)
    (externalMessageId : option string) (uuid : string)
| CallSendRawMessage (subject : string) (data : JsVal) (uuid : string)
| CallSendMessageWithTimeout (subject : string) (timeout : Z) (data : JsVal) (uuid : string)
| Reply (error : option Exn) (msg : Msg)
| Resume (n : nat)
| Request (subject : string) (cb : Handler) (noRespond : bool) (msg : Msg)
| Stream (cb : Handler) (msg : Msg)
| TimerFires (n : nat).

(** A call hands its exception to its caller; a callback run by the
    transport has nobody to hand it to. A delivery on the reply subject
    starts a run of the listener, which is resumed by later events, so
    that other events come between its reading of the table and its
    writing. *)
Definition step (ev : Event) (st : State) : State :=
  match ev with
  | CallConfigureAvailableEvents l => snd (configureAvailableEvents l st)
  | CallAddAdditionalAvailableEvents l => snd (addAdditionalAvailableEvents l st)
  | CallConfigureSecretManager m => snd (configureSecretManager m st)
  | CallSetConnection cn => snd (setConnection cn st)
  | CallInit => snd (init st)
  | CallPublish subject data reply => snd (publish subject data reply st)
  | CallSubscribe subject => snd (subscribe subject st)
  | CallGetMessages subject => snd (getMessages subject st)
  | CallSendMessage subject data r ext uuid => snd (sendMessage subject data r ext uuid st)
  | CallSendRawMessage subject data uuid => snd (sendRawMessage subject data uuid st)
  | CallSendMessageWithTimeout subject t data uuid =>
      snd (sendMessageWithTimeout subject t data uuid st)
  | Reply error msg => snd (run_executor (deliver error msg) st)
  | Resume n => snd (run_executor (resume n) st)
  | Request subject cb noRespond msg => snd (getMessages_callback subject cb noRespond msg st)
  | Stream cb msg => snd (subscribe_callback cb msg st)
  | TimerFires n => snd (fire_timer n st)
  end.

Definition run (evs : list Event) (st : State) : State :=
  foldl (fun s ev => step ev s) st evs.

(** A new instance: the two abstract members are given by the subclass,
    the other fields have their initialisers. *)
Definition new (queue reply : string) : State :=
  {| messageQueueName := queue; replySubject := reply; connection := None;
     responseCallbacksMap := ∅; availableEvents := None; secretManager := None;
     privateKey := None; promises := []; timers := []; suspended := [];
     trace := [] |}.

End NatsService.
End NatsService.

(** ** The tables of the correlation engine

    The table of callbacks, the promises and the timers, and how the
    event loop changes them. *)

Import NatsService.

(** The request of one [sendMessageWithTimeout] call, while nothing has
    settled it: [p1] is the promise of [sendMessage], [p2] the promise of
    the timer, [p3] the race returned to the caller, [n] the timer. All
    three are pending; [p3] follows [p2]; and nothing else in the tables
    refers to the three, so that only a reply under [id] or the timer [n]
    can settle them. *)
Record awaiting (id subject : string) (timeout : Z) (n p1 p2 p3 : nat)
  (m : gmap string Callback) (ps : list Promise) (ts : list (option Timer)) : Prop := {
  aw_p1 : state_of ps p1 = Some Pending;
  aw_p2 : state_of ps p2 = Some Pending;
  aw_p3 : state_of ps p3 = Some Pending;
  aw_timer : ts !! n = Some (Some {| t_messageId := id; t_subject := subject;
                                     t_promise := p2; t_delay := timeout |});
  aw_follow : exists P2, ps !! p2 = Some P2 /\ p3 ∈ racers P2;
  aw_callbacks : forall k cb, m !! k = Some cb ->
                 callback_promise cb ∈ [p1; p2; p3] ->
                 k = id /\ callback_promise cb = p1;
  aw_timers : forall j t, ts !! j = Some (Some t) -> t_promise t ∈ [p1; p2; p3] -> j = n;
  aw_racers : forall q Q r, ps !! q = Some Q -> r ∈ racers Q -> r ∈ [p1; p2; p3] ->
              r = p3 /\ (q = p1 \/ q = p2)
}.


(** How one step of the event loop can change the three tables. *)
Inductive Change : Type :=
| Unchanged
| Allocated
| Registered (k : string) (cb : Callback)
| Detached
| Timed (k : string) (t : Timer)
| TimedUnregistered (t : Timer)
| Settled (k : string) (cb : Callback) (o : PState)
| Fired (j : nat) (t : Timer).

(** What one step of the event loop can do to the suspended runs of the
    reply listener. *)
Inductive Turn : Type :=
| Idle
| Spawned (r : Suspended)
| Advanced (j : nat) (r : Suspended)
| Ended (j : nat).

Definition pending_promise : Promise := {| pstate := Pending; racers := [] |}.

Inductive changes :
  Change ->
  gmap string Callback -> list Promise -> list (option Timer) ->
  gmap string Callback -> list Promise -> list (option Timer) -> Prop :=
| ch_unchanged m ps ts :
    changes Unchanged m ps ts m ps ts
| ch_allocated m ps ts :
    changes Allocated m ps ts m (ps ++ [pending_promise]) ts
| ch_registered k cb m ps ts :
    callback_promise cb = length ps ->
    changes (Registered k cb) m ps ts (<[k := cb]> m) (ps ++ [pending_promise]) ts
| ch_detached m ps ts :
    changes Detached m ps ts
      m (settle (length ps) (Fulfilled VNull) (ps ++ [pending_promise])) ts
| ch_timed k t m ps ts :
    t_messageId t = k ->
    t_promise t = S (length ps) ->
    changes (Timed k t) m ps ts
      (<[k := SendCallback (length ps)]> m)
      (add_racer (S (S (length ps))) (S (length ps))
         (add_racer (S (S (length ps))) (length ps)
            (((ps ++ [pending_promise]) ++ [pending_promise]) ++ [pending_promise])))
      (ts ++ [Some t])
| ch_timed_unregistered t m ps ts :
    t_promise t = S (length ps) ->
    changes (TimedUnregistered t) m ps ts
      m
      (add_racer (S (S (length ps))) (S (length ps))
         (add_racer (S (S (length ps))) (length ps)
            (((ps ++ [pending_promise]) ++ [pending_promise]) ++ [pending_promise])))
      (ts ++ [Some t])
| ch_settled k cb o m ps ts :
    o <> Pending ->
    changes (Settled k cb o) m ps ts (delete k m) (settle (callback_promise cb) o ps) ts
| ch_fired j t m ps ts :
    ts !! j = Some (Some t) ->
    changes (Fired j t) m ps ts
      (delete (t_messageId t) m)
      (settle (t_promise t) (Rejected (ErrorObj ("Timeout exceed (" ++ t_subject t ++ ")"))) ps)
      (<[j := None]> ts).

Inductive turns :
  Turn -> list (option Suspended) -> list (option Suspended) -> Prop :=
| tu_idle rs :
    turns Idle rs rs
| tu_spawned r rs :
    turns (Spawned r) rs (rs ++ [Some r])
| tu_advanced j r r' rs :
    rs !! j = Some (Some r) ->
    run_id r' = run_id r ->
    run_fn r' = run_fn r ->
    turns (Advanced j r') rs (<[j := Some r']> rs)
| tu_ended j r rs :
    rs !! j = Some (Some r) ->
    turns (Ended j) rs (<[j := None]> rs).

(** The change and the turn that an event can cause in a state: a run
    is spawned by a delivery that found a callback under its messageId;
    a callback settles when the run that holds it is resumed and comes
    to its end. *)
Definition causes {C : Codec} (st : State) (ev : Event) (c : Change) (t : Turn) : Prop :=
  match t with
  | Idle =>
      match c with
      | Unchanged | Allocated => True
      | Registered k cb =>
          (exists subject data ext uuid,
             ev = CallSendMessage subject data true ext uuid /\ k = default uuid ext) \/
          (exists subject data, ev = CallSendRawMessage subject data k)
      | Detached =>
          exists subject data ext uuid, ev = CallSendMessage subject data false ext uuid
      | Timed k t =>
          exists data, ev = CallSendMessageWithTimeout (t_subject t) (t_delay t) data k
      | TimedUnregistered t =>
          exists data,
            ev = CallSendMessageWithTimeout (t_subject t) (t_delay t) data (t_messageId t)
      | Settled _ _ _ => False
      | Fired j t => ev = TimerFires j
      end
  | Spawned r =>
      c = Unchanged /\
      responseCallbacksMap st !! run_id r = Some (run_fn r) /\
      exists msg h, ev = Reply None msg /\ msg_headers msg = Some h /\
                    hdr_get h "messageId" = run_id r
  | Advanced j r =>
      c = Unchanged /\ ev = Resume j
  | Ended j =>
      ev = Resume j /\
      exists r, suspended st !! j = Some (Some r) /\
                (c = Unchanged \/ exists o, c = Settled (run_id r) (run_fn r) o)
  end.

(** Every promise named in the tables has been allocated. *)
Definition bounded (m : gmap string Callback) (ps : list Promise)
  (ts : list (option Timer)) : Prop :=
  (forall k cb, m !! k = Some cb -> (callback_promise cb < length ps)%nat) /\
  (forall q Q r, ps !! q = Some Q -> r ∈ racers Q -> (r < length ps)%nat) /\
  (forall j t, ts !! j = Some (Some t) -> (t_promise t < length ps)%nat).

(** Every callback held by a suspended run belongs to an allocated
    promise. *)
Definition bounded_runs (ps : list Promise) (rs : list (option Suspended)) : Prop :=
  forall j r, rs !! j = Some (Some r) -> (callback_promise (run_fn r) < length ps)%nat.

(** No suspended run under another id holds the callback of one of the
    promises [ws]. *)
Definition apart (id : string) (ws : list nat) (rs : list (option Suspended)) : Prop :=
  forall j r, rs !! j = Some (Some r) -> callback_promise (run_fn r) ∈ ws -> run_id r = id.

(** A stored callback that a suspended run holds as well is stored under
    the id of that run. *)
Definition runs_match (m : gmap string Callback) (rs : list (option Suspended)) : Prop :=
  forall j r k cb, rs !! j = Some (Some r) -> m !! k = Some cb ->
                   callback_promise cb = callback_promise (run_fn r) -> k = run_id r.

(** Whether an event writes the entry of [k] in the table of callbacks:
    a registration under [k], the resumption of a run of the listener
    under [k], or a timer set for [k]. *)
Definition touches {C : Codec} (k : string) (ev : Event) (st : State) : bool :=
  match ev with
  | CallSendMessage _ _ true ext uuid => String.eqb (default uuid ext) k
  | CallSendRawMessage _ _ uuid => String.eqb uuid k
  | CallSendMessageWithTimeout _ _ _ uuid => String.eqb uuid k
  | Resume j =>
      match suspended st !! j with
      | Some (Some r) => String.eqb (run_id r) k
      | _ => false
      end
  | TimerFires j =>
      match timers st !! j with
      | Some (Some t) => String.eqb (t_messageId t) k
      | _ => false
      end
  | _ => false
  end.

(** A sequence of events none of which, in the state it meets, writes
    the entry of [k]. *)
Fixpoint quiet {C : Codec} {J : Jwt} {E : ProcessEnv} (k : string) (evs : list Event)
  (st : State) : bool :=
  match evs with
  | [] => true
  | ev :: rest => negb (touches k ev st) && quiet k rest (step ev st)
  end.

(** The settlement that a stored closure makes of [(body, error, code)]. *)
Definition outcome (cb : Callback) (body error code : JsVal) : PState :=
  if truthy error
  then Rejected match cb with
                | SendCallback _ => MessageError error code
                | RawCallback _ => Raised error
                end
  else Fulfilled body.

(** The settlement that the reply listener makes, through the stored
    closure [cb], of a reply whose payload decodes to [message] and whose
    token verification comes to [verification]. *)
Definition reply_outcome (cb : Callback) (message : JsVal)
  (verification : Completion JsVal) : PState :=
  if truthy message then
    match verification with
    | Return _ => outcome cb (opt_member message "body") (opt_member message "error")
                    (opt_member message "code")
    | Throw e => outcome cb VNull (exn_message e) (VNum 401)
    end
  else outcome cb VNull VUndefined VUndefined.

(** A messageId that the headers carry as it is. *)
Definition plain (id : string) : bool :=
  negb (has_line_break id) && String.eqb (trim id) id.

(** The tables of an instance are consistent when they name allocated
    promises only, every stored callback belongs to a promise that is
    still pending and to no other entry, and no race and no timer settles
    the promise of a stored callback. An instance is [sound] when its
    tables are consistent and its suspended runs hold callbacks of
    allocated promises which, where they are still stored, are stored
    under the id of the run. *)
Record consistent (m : gmap string Callback) (ps : list Promise)
  (ts : list (option Timer)) : Prop := {
  co_bounded : bounded m ps ts;
  co_waiting : forall k cb, m !! k = Some cb ->
               state_of ps (callback_promise cb) = Some Pending;
  co_distinct : forall k1 k2 cb1 cb2, m !! k1 = Some cb1 -> m !! k2 = Some cb2 ->
                callback_promise cb1 = callback_promise cb2 -> k1 = k2;
  co_racers : forall q Q r k cb, ps !! q = Some Q -> r ∈ racers Q ->
              m !! k = Some cb -> callback_promise cb <> r;
  co_timers : forall j t k cb, ts !! j = Some (Some t) ->
              m !! k = Some cb -> callback_promise cb <> t_promise t
}.

Section KeepsTables.
Context `{Codec}.

Record sound (st : State) : Prop := {
  so_tables : consistent (responseCallbacksMap st) (promises st) (timers st);
  so_bounded : bounded_runs (promises st) (suspended st);
  so_runs : runs_match (responseCallbacksMap st) (suspended st)
}.

(** A computation that leaves the three tables and the suspended runs
    alone. *)
Definition keeps_tables {A} (m : M A) : Prop :=
  forall st,
    responseCallbacksMap (snd (m st)) = responseCallbacksMap st /\
    promises (snd (m st)) = promises st /\
    timers (snd (m st)) = timers st /\
    suspended (snd (m st)) = suspended st.

End KeepsTables.

(** ** Concrete collaborators

    Small closed instances of the collaborators, on which the definitions
    above can be evaluated. *)

Module Fixture.

(** The codec that leaves a value as it is. *)
#[local] Instance plain_codec : Codec := {|
  Bytes := JsVal;
  encode := fun v => Return v;
  decode := fun b => Return b
|}.

(** A token package with two tokens: ["tok-policy"], signed with the
    private key ["policy-private"] for the subject ["policy-service"] and
    valid under ["policy-public"]; and ["tok-billing"], which names
    ["billing-service"] and is valid under no key. *)
#[local] Instance table_jwt : Jwt := {|
  jwt_sign := fun payload key =>
    if strict_eq (opt_member payload "sub") (VStr "policy-service")
       && String.eqb key "policy-private"
    then Return "tok-policy"
    else Throw (Raised (VStr "secretOrPrivateKey is not valid"));
  jwt_decode := fun token =>
    if String.eqb token "tok-policy" then VObj [("sub", VStr "policy-service")]
    else if String.eqb token "tok-billing" then VObj [("sub", VStr "billing-service")]
    else VNull;
  jwt_verify := fun token key =>
    if String.eqb token "tok-policy" && String.eqb key "policy-public"
    then Return (VObj [("sub", VStr "policy-service"); ("iat", VNum 1700000000)])
    else Throw (Raised (VStr "invalid signature"))
|}.

Definition table_keypair (priv pub : string) : Prop :=
  priv = "policy-private" /\ pub = "policy-public".

#[local] Instance policy_env : ProcessEnv := {| SERVICE_CHANNEL := "policy-service" |}.

(** A secret store holding the key pair of the policy service and the
    public key of the billing service. *)
Definition store : SecretManager := {|
  getSecrets := fun path =>
    if String.eqb path "secretkey/jwt-service/policy-service"
    then Some {[ "SERVICE_JWT_SECRET_KEY" := "policy-private" ]}
    else if String.eqb path "publickey/jwt-service/policy-service"
    then Some {[ "SERVICE_JWT_PUBLIC_KEY" := "policy-public" ]}
    else if String.eqb path "publickey/jwt-service/billing-service"
    then Some {[ "SERVICE_JWT_PUBLIC_KEY" := "billing-public" ]}
    else None
|}.

(** A store with no key at all. *)
Definition empty_store : SecretManager := {| getSecrets := fun _ => None |}.

Definition open_connection : Connection := {| publish_failure := None |}.

(** An instance with a connection and the store, as after start-up. *)
Definition service : State :=
  NatsService.run
    [NatsService.CallSetConnection open_connection;
     NatsService.CallConfigureSecretManager (Some store);
     NatsService.CallInit]
    (NatsService.new "policy-queue" "policy-reply").

(** The same with an allow-list. *)
Definition restricted_service : State :=
  NatsService.step (NatsService.CallConfigureAvailableEvents ["svc.allowed"]) service.

(** An instance whose store has no private key: signing fails. *)
Definition keyless_service : State :=
  NatsService.run
    [NatsService.CallSetConnection open_connection;
     NatsService.CallConfigureSecretManager (Some empty_store);
     NatsService.CallInit]
    (NatsService.new "policy-queue" "policy-reply").

Definition ping : JsVal := VObj [("op", VStr "ping")].

(** A reply envelope for [messageId], carrying [token]. *)
Definition reply_to (messageId token : string) (body : JsVal) : Msg :=
  {| msg_subject := "policy-reply"; msg_data := body;
     msg_headers := Some [("messageId", messageId); ("serviceToken", token)];
     msg_reply := None |}.

Definition pong : JsVal := VObj [("body", VObj [("op", VStr "pong")])].

Definition echo : NatsService.Handler := fun payload _ => Return payload.

(** The instance after a [sendMessage] and after a [sendRawMessage] under
    the id "id-1"; replies to it with a valid token, with a token that
    does not verify, and with a [null] payload; and an inbound request. *)
Definition sent : State := NatsService.step (NatsService.CallSendMessage "svc.y" ping true None "id-1") service.
Definition sent_raw : State := NatsService.step (NatsService.CallSendRawMessage "svc.y" ping "id-1") service.
Definition sent_timed : State :=
  NatsService.step (NatsService.CallSendMessageWithTimeout "svc.y" 50 ping "id-1") service.
Definition genuine : Msg := reply_to "id-1" "tok-policy" pong.
Definition forged : Msg := reply_to "id-1" "tok-billing" pong.
Definition empty_reply : Msg := reply_to "id-1" "tok-billing" VNull.

(** The first of these after the genuine reply has been delivered and
    its run of the listener is through; and what happens while a timed
    request waits: a publish and the delivery of a reply to some other
    request. *)
Definition replied : State :=
  NatsService.run
    [NatsService.Reply None genuine; NatsService.Resume 0; NatsService.Resume 0] sent.
Definition meanwhile : list NatsService.Event :=
  [NatsService.CallPublish "svc.z" ping None;
   NatsService.Reply None (reply_to "id-7" "tok-policy" pong)].

Definition request : Msg :=
  {| msg_subject := "svc.denied"; msg_data := ping;
     msg_headers := Some [("messageId", "id-9"); ("serviceToken", "tok-policy")];
     msg_reply := Some "caller-reply" |}.

End Fixture.

(** * Properties *)

(** ** JavaScript values *)

Lemma strict_eq_true (a b : JsVal) : strict_eq a b = true -> a = b.
Proof.
  destruct a, b; simpl; try discriminate; try reflexivity; intros E.
  - apply Bool.eqb_prop in E. congruence.
  - apply Z.eqb_eq in E. congruence.
  - apply String.eqb_eq in E. congruence.
Qed.

Lemma truthy_nonempty (s : string) : s <> "" -> truthy (VStr s) = true.
Proof.
  intros Hs. simpl. destruct (String.eqb_spec s ""); [contradiction | reflexivity].
Qed.

(** ** JwtValidator *)

Section JwtValidatorProperties.
Context `{Jwt} `{ProcessEnv}.

(** The [try] block accepts exactly when the key validates the token with
    a payload whose [sub] is the signer. *)
Lemma verify_signature_accepts (token key : string) (signer v : JsVal) :
  JwtValidator.verify_signature token key signer = Return v ->
  v = signer /\
  exists payload, jwt_verify token key = Return payload /\
                  member payload "sub" = Return signer.
Proof.
  unfold JwtValidator.verify_signature.
  destruct (jwt_verify token key) as [payload | e]; [| discriminate].
  destruct (member payload "sub") as [sub | e] eqn:Hsub; [| discriminate].
  destruct (strict_eq sub signer) eqn:Heq; simpl; [| discriminate].
  intros [= <-]. apply strict_eq_true in Heq. subst sub. eauto.
Qed.

(** Whatever goes wrong in the [try] block, one error comes out. *)
Lemma verify_signature_generic (token key : string) (signer : JsVal) (e : Exn) :
  JwtValidator.verify_signature token key signer = Throw e ->
  e = ErrorObj "JWTValidator: invalid or expired token".
Proof.
  unfold JwtValidator.verify_signature.
  destruct (jwt_verify token key) as [payload | e0]; [| congruence].
  destruct (member payload "sub") as [sub | e0]; [| congruence].
  destruct (negb (strict_eq sub signer)); congruence.
Qed.

(** With a store and a token, [verify] is its three checks in order. *)
Lemma verify_unfold (mgr : SecretManager) (token : string) :
  token <> "" ->
  JwtValidator.verify token (Some mgr) =
  let signer := opt_member (jwt_decode token) "sub" in
  if truthy signer then
    match secret_field (getSecrets mgr ("publickey/jwt-service/" ++ to_string signer))
                       "SERVICE_JWT_PUBLIC_KEY" with
    | Some key => JwtValidator.verify_signature token key signer
    | None => Throw (ErrorObj ("JWTValidator: no publicKey at publickey/jwt-service/"
                                 ++ to_string signer))
    end
  else Throw (ErrorObj "JWTValidator: missing sub claim").
Proof.
  intros Htok. unfold JwtValidator.verify.
  destruct (String.eqb_spec token ""); [contradiction |].
  simpl. destruct (truthy (opt_member (jwt_decode token) "sub")); reflexivity.
Qed.

(** Every error of [verify] is an [Error] with a message that is not
    empty. *)
Lemma verify_error_message (token : string) (mgr : option SecretManager) (e : Exn) :
  JwtValidator.verify token mgr = Throw e ->
  exists m, e = ErrorObj m /\ m <> "".
Proof.
  unfold JwtValidator.verify. destruct mgr as [m |]; [| discriminate].
  destruct (String.eqb token ""); [discriminate |].
  destruct (negb (truthy (opt_member (jwt_decode token) "sub"))).
  { intros [= <-]. eexists; split; [reflexivity | discriminate]. }
  destruct (secret_field _ _) as [key |].
  - intros He. apply verify_signature_generic in He. subst e.
    eexists; split; [reflexivity | discriminate].
  - intros [= <-]. eexists; split; [reflexivity | discriminate].
Qed.

(** C1 (as amended): with a secret store configured and a token that is
    not empty, an accepted token yields the identity of its [sub] claim,
    the public key was read under [publickey/jwt-service/<identity>], and
    that key validated the token with a payload of the same [sub]; and a
    token whose claimed signer's public key validates no payload is
    refused. With no secret store configured every token is accepted,
    and with a store the empty token is: [verify] returns the empty
    identity, whatever the token claims and whatever keys there are. *)
Theorem verify_binds_signer (mgr : SecretManager) (token : string) :
  (token <> "" ->
   (forall identity,
      JwtValidator.verify token (Some mgr) = Return identity ->
      identity = opt_member (jwt_decode token) "sub" /\
      exists key payload,
        secret_field (getSecrets mgr ("publickey/jwt-service/" ++ to_string identity))
                     "SERVICE_JWT_PUBLIC_KEY" = Some key /\
        jwt_verify token key = Return payload /\
        member payload "sub" = Return identity) /\
   (forall key,
      secret_field
        (getSecrets mgr ("publickey/jwt-service/"
                           ++ to_string (opt_member (jwt_decode token) "sub")))
        "SERVICE_JWT_PUBLIC_KEY" = Some key ->
      (forall payload, jwt_verify token key <> Return payload) ->
      exists e, JwtValidator.verify token (Some mgr) = Throw e)) /\
  (forall t, JwtValidator.verify t None = Return (VStr "")) /\
  JwtValidator.verify "" (Some mgr) = Return (VStr "").
Proof.
  split; [| split; [intros t |]; reflexivity].
  intros Htok. rewrite (verify_unfold mgr token Htok). cbv zeta.
  set (signer := opt_member (jwt_decode token) "sub").
  split.
  - intros identity. destruct (truthy signer); [| discriminate].
    destruct (secret_field _ _) as [key |] eqn:Hkey; [| discriminate].
    intros Hv. apply verify_signature_accepts in Hv as [-> (payload & Hp & Hsub)].
    split; [reflexivity |]. exists key, payload. auto.
  - intros key Hkey Hbad. rewrite Hkey.
    destruct (truthy signer); [| eauto].
    destruct (JwtValidator.verify_signature token key signer) as [v | e] eqn:Hv; [| eauto].
    apply verify_signature_accepts in Hv as [_ (payload & Hp & _)].
    exfalso. exact (Hbad payload Hp).
Qed.

End JwtValidatorProperties.

Section TokenRoundTrip.
Context `{Jwt} `{ProcessEnv}.

(** The asymmetric signature scheme of the token package: [keypair priv
    pub] relates a private key to its public key, and a token signed with
    the one is not empty, decodes to the claims that were signed and is
    valid under the other. *)
Variable keypair : string -> string -> Prop.
Hypothesis jwt_sign_verify :
  forall (payload : JsVal) (priv pub token : string),
    keypair priv pub ->
    jwt_sign payload priv = Return token ->
    token <> "" /\
    opt_member (jwt_decode token) "sub" = opt_member payload "sub" /\
    exists verified,
      jwt_verify token pub = Return verified /\
      member verified "sub" = Return (opt_member payload "sub").

(** A successful [sign] signed the claim [{sub: SERVICE_CHANNEL}] with the
    key it leaves in the cache. *)
Lemma sign_returns (mgr : SecretManager) (cache : option string) (token priv : string) :
  JwtValidator.sign (Some mgr) cache = (Return token, Some priv) ->
  jwt_sign (VObj [("sub", VStr SERVICE_CHANNEL)]) priv = Return token.
Proof.
  unfold JwtValidator.sign, JwtValidator.loadPrivateKey.
  destruct cache as [k |]; simpl.
  - destruct (String.eqb k "").
    + destruct (secret_field _ _) as [k' |]; simpl; [| discriminate].
      intros [= E ->]. exact E.
    + intros [= E ->]. exact E.
  - destruct (secret_field _ _) as [k' |]; simpl; [| discriminate].
    intros [= E ->]. exact E.
Qed.

(** C5: a token that [sign] produced for the service, verified against a
    store that publishes the matching public key under the service's
    name, yields the service's name; and for any token whose claimed
    signer's public key does not validate it (whatever [jwt.verify]
    throws, or a payload with another [sub]) the result is the one error
    "JWTValidator: invalid or expired token". *)
Theorem token_round_trip
  (signer_store verifier_store : SecretManager) (cache : option string)
  (token priv pub : string) :
  SERVICE_CHANNEL <> "" ->
  JwtValidator.sign (Some signer_store) cache = (Return token, Some priv) ->
  keypair priv pub ->
  secret_field (getSecrets verifier_store ("publickey/jwt-service/" ++ SERVICE_CHANNEL))
               "SERVICE_JWT_PUBLIC_KEY" = Some pub ->
  JwtValidator.verify token (Some verifier_store) = Return (VStr SERVICE_CHANNEL) /\
  (forall (mgr : SecretManager) (other key : string),
     other <> "" ->
     truthy (opt_member (jwt_decode other) "sub") = true ->
     secret_field
       (getSecrets mgr ("publickey/jwt-service/"
                          ++ to_string (opt_member (jwt_decode other) "sub")))
       "SERVICE_JWT_PUBLIC_KEY" = Some key ->
     (forall payload, jwt_verify other key = Return payload ->
                      member payload "sub" <> Return (opt_member (jwt_decode other) "sub")) ->
     JwtValidator.verify other (Some mgr)
     = Throw (ErrorObj "JWTValidator: invalid or expired token")).
Proof.
  intros Hname Hsign Hpair Hpub. split.
  - apply sign_returns in Hsign.
    destruct (jwt_sign_verify _ _ _ _ Hpair Hsign) as (Htok & Hdec & verified & Hver & Hsub).
    simpl in Hdec, Hsub.
    rewrite (verify_unfold _ _ Htok). cbv zeta. rewrite Hdec.
    rewrite (truthy_nonempty _ Hname). simpl to_string. rewrite Hpub.
    unfold JwtValidator.verify_signature. rewrite Hver, Hsub.
    simpl. rewrite String.eqb_refl. reflexivity.
  - intros mgr other key Hother Htruthy Hkey Hbad.
    rewrite (verify_unfold _ _ Hother). cbv zeta. rewrite Htruthy, Hkey.
    destruct (JwtValidator.verify_signature other key _) as [v | e] eqn:Hv.
    + apply verify_signature_accepts in Hv as [_ (payload & Hp & Hsub)].
      exfalso. exact (Hbad payload Hp Hsub).
    + apply verify_signature_generic in Hv. congruence.
Qed.

End TokenRoundTrip.

(** ** The promise store *)

Lemma state_of_lt (ps : list Promise) (p : nat) (s : PState) :
  state_of ps p = Some s -> (p < length ps)%nat.
Proof.
  unfold state_of. destruct (ps !! p) eqn:E; [| discriminate].
  intros _. eapply lookup_lt_Some. exact E.
Qed.

Lemma settle_one_length (r : nat) (o : PState) (ps : list Promise) :
  length (settle_one r o ps) = length ps.
Proof.
  unfold settle_one. destruct (ps !! r) as [P |]; [| reflexivity].
  destruct (pstate P); try reflexivity. apply length_insert.
Qed.

Lemma settle_one_other (r p : nat) (o : PState) (ps : list Promise) :
  r <> p -> settle_one r o ps !! p = ps !! p.
Proof.
  intros Hne. unfold settle_one. destruct (ps !! r) as [P |]; [| reflexivity].
  destruct (pstate P); try reflexivity. by apply list_lookup_insert_ne.
Qed.

Lemma settle_one_racers (r p : nat) (o : PState) (ps : list Promise) :
  racers <$> (settle_one r o ps !! p) = racers <$> (ps !! p).
Proof.
  destruct (decide (r = p)) as [-> |Hne]; [| by rewrite settle_one_other].
  unfold settle_one. destruct (ps !! p) as [P |] eqn:E; [| by rewrite E].
  destruct (pstate P); try (by rewrite E).
  rewrite list_lookup_insert_eq; [done | by eapply lookup_lt_Some].
Qed.

Lemma settle_one_settled (r p : nat) (o s : PState) (ps : list Promise) :
  state_of ps p = Some s -> s <> Pending ->
  state_of (settle_one r o ps) p = Some s.
Proof.
  intros Hs Hne. destruct (decide (r = p)) as [-> |Hrp].
  - unfold state_of in *. unfold settle_one.
    destruct (ps !! p) as [P |] eqn:E; [| discriminate]. simpl in Hs.
    injection Hs as Hs. destruct (pstate P) eqn:EP.
    + congruence.
    + rewrite E. simpl. congruence.
    + rewrite E. simpl. congruence.
  - unfold state_of. by rewrite settle_one_other.
Qed.

Lemma settle_one_pending (p : nat) (o : PState) (ps : list Promise) :
  state_of ps p = Some Pending -> state_of (settle_one p o ps) p = Some o.
Proof.
  unfold state_of, settle_one. destruct (ps !! p) as [P |] eqn:E; [| discriminate].
  simpl. intros [= ->]. rewrite list_lookup_insert_eq; [done |]. by eapply lookup_lt_Some.
Qed.

Section Settle.
Variable o : PState.
Hypothesis o_settled : o <> Pending.

Lemma settle_racers_length (rs : list nat) (ps : list Promise) :
  length (foldr (fun r acc => settle_one r o acc) ps rs) = length ps.
Proof.
  induction rs as [| r rs IH]; simpl; [reflexivity |].
  by rewrite settle_one_length.
Qed.

Lemma settle_racers_settled (rs : list nat) (ps : list Promise) (p : nat) (s : PState) :
  state_of ps p = Some s -> s <> Pending ->
  state_of (foldr (fun r acc => settle_one r o acc) ps rs) p = Some s.
Proof.
  intros Hs Hne. induction rs as [| r rs IH]; simpl; [exact Hs |].
  by apply settle_one_settled.
Qed.

Lemma settle_racers_other (rs : list nat) (ps : list Promise) (p : nat) :
  p ∉ rs -> foldr (fun r acc => settle_one r o acc) ps rs !! p = ps !! p.
Proof.
  induction rs as [| r rs IH]; simpl; [reflexivity |].
  intros Hnot. apply not_elem_of_cons in Hnot as [Hne Hnot].
  rewrite settle_one_other; [by apply IH | congruence].
Qed.

Lemma settle_racers_racers (rs : list nat) (ps : list Promise) (p : nat) :
  racers <$> (foldr (fun r acc => settle_one r o acc) ps rs !! p) = racers <$> (ps !! p).
Proof.
  induction rs as [| r rs IH]; simpl; [reflexivity |].
  by rewrite settle_one_racers.
Qed.

Lemma settle_racers_progress (rs : list nat) (ps : list Promise) (p : nat) :
  state_of ps p = Some Pending ->
  state_of (foldr (fun r acc => settle_one r o acc) ps rs) p = Some Pending \/
  state_of (foldr (fun r acc => settle_one r o acc) ps rs) p = Some o.
Proof.
  intros Hp. induction rs as [| r rs IH]; simpl; [by left |].
  destruct (decide (r = p)) as [-> | Hne].
  - right. destruct IH as [IH | IH].
    + by apply settle_one_pending.
    + by apply settle_one_settled.
  - unfold state_of in *. by rewrite settle_one_other.
Qed.

Lemma settle_racers_member (rs : list nat) (ps : list Promise) (p : nat) :
  p ∈ rs -> state_of ps p = Some Pending ->
  state_of (foldr (fun r acc => settle_one r o acc) ps rs) p = Some o.
Proof.
  intros Hin Hp. induction rs as [| r rs IH]; [by apply elem_of_nil in Hin |].
  simpl. apply elem_of_cons in Hin as [<- | Hin].
  - destruct (settle_racers_progress rs ps p Hp) as [E | E].
    + by apply settle_one_pending.
    + by apply settle_one_settled.
  - apply settle_one_settled; [by apply IH | exact o_settled].
Qed.

Lemma settle_length (p : nat) (ps : list Promise) :
  length (settle p o ps) = length ps.
Proof.
  unfold settle. destruct (ps !! p) as [P |]; [| reflexivity].
  destruct (pstate P); try reflexivity.
  by rewrite settle_racers_length, settle_one_length.
Qed.

Lemma settle_pending (p : nat) (ps : list Promise) :
  state_of ps p = Some Pending -> state_of (settle p o ps) p = Some o.
Proof.
  intros Hp. unfold settle. pose proof Hp as Hp'. unfold state_of in Hp'.
  destruct (ps !! p) as [P |]; [| discriminate]. simpl in Hp'. injection Hp' as ->.
  apply settle_racers_settled; [by apply settle_one_pending | exact o_settled].
Qed.

(** First writer wins: a settled promise keeps its state. *)
Lemma settle_settled (p q : nat) (s : PState) (ps : list Promise) :
  state_of ps q = Some s -> s <> Pending -> state_of (settle p o ps) q = Some s.
Proof.
  intros Hs Hne. unfold settle. destruct (ps !! p) as [P |]; [| exact Hs].
  destruct (pstate P); try exact Hs.
  apply settle_racers_settled; [by apply settle_one_settled | exact Hne].
Qed.


Lemma settle_other (p q : nat) (ps : list Promise) :
  q <> p -> (forall P, ps !! p = Some P -> q ∉ racers P) ->
  settle p o ps !! q = ps !! q.
Proof.
  intros Hne Hnot. unfold settle. destruct (ps !! p) as [P |] eqn:E; [| reflexivity].
  destruct (pstate P); try reflexivity.
  rewrite settle_racers_other; [| by apply Hnot].
  apply settle_one_other. congruence.
Qed.

Lemma settle_racer (p r : nat) (P : Promise) (ps : list Promise) :
  ps !! p = Some P -> pstate P = Pending -> r ∈ racers P ->
  state_of ps r = Some Pending ->
  state_of (settle p o ps) r = Some o.
Proof.
  intros HP Hpend Hin Hr. unfold settle. rewrite HP, Hpend.
  destruct (decide (p = r)) as [-> | Hne].
  - apply settle_racers_settled; [by apply settle_one_pending | exact o_settled].
  - apply settle_racers_member; [exact Hin |].
    unfold state_of in *. by rewrite settle_one_other.
Qed.

Lemma settle_racers_of (p q : nat) (ps : list Promise) :
  racers <$> (settle p o ps !! q) = racers <$> (ps !! q).
Proof.
  unfold settle. destruct (ps !! p) as [P |]; [| reflexivity].
  destruct (pstate P); try reflexivity.
  by rewrite settle_racers_racers, settle_one_racers.
Qed.

End Settle.

(** ** Sending *)

Ltac exec :=
  cbv [init_callback publish sign_and_publish sendMessage sendRawMessage
       sendMessageWithTimeout fire_timer subscribe subscribe_callback
       getMessages_try getMessages_callback getMessages init
       configureAvailableEvents addAdditionalAvailableEvents
       configureSecretManager setConnection
       init_callback_begin init_callback_resume deliver resume
       the_connection connection_publish call_handler respond new_promise race
       bind gets lift ret modify emit call try_catch verify throw run_executor
       NatsService.sign].

Ltac exec_in H :=
  cbv [init_callback publish sign_and_publish sendMessage sendRawMessage
       sendMessageWithTimeout fire_timer subscribe subscribe_callback
       getMessages_try getMessages_callback getMessages init
       configureAvailableEvents addAdditionalAvailableEvents
       configureSecretManager setConnection
       init_callback_begin init_callback_resume deliver resume
       the_connection connection_publish call_handler respond new_promise race
       bind gets lift ret modify emit call try_catch verify throw run_executor
       NatsService.sign] in H.

Section Sending.
Context `{Codec} `{Jwt} `{ProcessEnv}.

Lemma publish_spec (subject : string) (data : JsVal) (reply : option string) (st : State) :
  publish subject data reply st =
  match attempt st data with
  | inl e => (Throw e, set_privateKey (key_cache st) st)
  | inr (token, payload) =>
      (Return tt,
       set_trace (trace st ++
                  [EPublish subject payload
                     {| opt_serviceToken := Some token;
                        opt_reply := match reply with
                              | Some r => if String.eqb r "" then None else Some r
                              | None => None
                              end;
                        opt_headers := None |}])
         (set_privateKey (key_cache st) st))
  end.
Proof.
  unfold attempt, key_cache. exec.
  destruct (JwtValidator.sign (secretManager st) (privateKey st)) as [[token | e] pk];
    simpl; [| reflexivity].
  destruct (connection st) as [cn |]; simpl; [| reflexivity].
  destruct (encode data) as [payload | e]; simpl; [| reflexivity].
  destruct (publish_failure cn); reflexivity.
Qed.

(** A value without a line break is appended trimmed; a plain one as it
    is. *)
Lemma hdr_append_clean (h : Headers) (k v : string) :
  has_line_break v = false -> hdr_append h k v = Return (h ++ [(k, trim v)])%list.
Proof. unfold hdr_append. by intros ->. Qed.

Lemma hdr_append_plain (h : Headers) (k v : string) :
  plain v = true -> hdr_append h k v = Return (h ++ [(k, v)])%list.
Proof.
  unfold plain. intros Hp. apply andb_true_iff in Hp as [Hl Ht].
  apply negb_true_iff in Hl. apply String.eqb_eq in Ht.
  rewrite (hdr_append_clean h k v Hl). by rewrite Ht.
Qed.

Lemma hdr_append_throws (h : Headers) (k v : string) (e : Exn) :
  hdr_append h k v = Throw e -> e = BadHeader /\ has_line_break v = true.
Proof.
  unfold hdr_append. destruct (has_line_break v); [| discriminate].
  intros [= <-]. auto.
Qed.

(** The sends fail where [publish] fails, or earlier on a token that
    the headers refuse. *)
Lemma attempt_send_fails (st : State) (data : JsVal) (head : Headers) (e : Exn) :
  attempt st data = inl e ->
  exists e', attempt_send st data head = inl e' /\ (e' = e \/ e' = BadHeader).
Proof.
  unfold attempt, attempt_send.
  destruct (JwtValidator.sign (secretManager st) (privateKey st)) as [[token | e0] pk];
    simpl; [| intros [= <-]; eauto].
  destruct (hdr_append head "serviceToken" token) as [head' | e1] eqn:Hh.
  2:{ intros _. apply hdr_append_throws in Hh as [-> _]. eauto. }
  destruct (connection st) as [cn |]; [| intros [= <-]; eauto].
  destruct (encode data) as [payload | e1]; [| intros [= <-]; eauto].
  destruct (publish_failure cn); [intros [= <-]; eauto | discriminate].
Qed.

(** The sends succeed where [publish] succeeds with a token that the
    headers accept, and carry that token trimmed. *)
Lemma attempt_send_succeeds (st : State) (data : JsVal) (head : Headers)
  (token : string) (payload : Bytes) :
  attempt st data = inr (token, payload) ->
  has_line_break token = false ->
  attempt_send st data head
  = inr ((head ++ [("serviceToken", trim token)])%list, payload).
Proof.
  unfold attempt, attempt_send.
  destruct (JwtValidator.sign (secretManager st) (privateKey st)) as [[tok | e0] pk];
    simpl; [| discriminate].
  destruct (connection st) as [cn |]; [| destruct (hdr_append _ _ _); discriminate].
  destruct (encode data) as [pl | e1]; [| destruct (hdr_append _ _ _); discriminate].
  destruct (publish_failure cn); [destruct (hdr_append _ _ _); discriminate |].
  intros [= -> ->] Hl. by rewrite (hdr_append_clean _ _ _ Hl).
Qed.

Lemma sign_and_publish_spec (subject : string) (data : JsVal) (head : Headers) (st : State) :
  sign_and_publish subject data head st =
  match attempt_send st data head with
  | inl e => (Throw e, set_privateKey (key_cache st) st)
  | inr (head', payload) =>
      (Return tt,
       set_trace (trace st ++
                  [EPublish subject payload
                     {| opt_serviceToken := None;
                        opt_reply := Some (replySubject st);
                        opt_headers := Some head' |}])
         (set_privateKey (key_cache st) st))
  end.
Proof.
  unfold attempt_send, key_cache. exec.
  destruct (JwtValidator.sign (secretManager st) (privateKey st)) as [[token | e] pk];
    simpl; [| reflexivity].
  destruct (hdr_append head "serviceToken" token) as [head' | e]; simpl; [| reflexivity].
  destruct (connection st) as [cn |]; simpl; [| reflexivity].
  destruct (encode data) as [payload | e]; simpl; [| reflexivity].
  destruct (publish_failure cn); reflexivity.
Qed.

Lemma state_of_fresh (ps : list Promise) (P : Promise) :
  state_of (ps ++ [P]) (length ps) = Some (pstate P).
Proof. unfold state_of. by rewrite list_lookup_middle. Qed.

Lemma state_of_app (ps : list Promise) (P : Promise) (p : nat) (s : PState) :
  state_of ps p = Some s -> state_of (ps ++ [P]) p = Some s.
Proof.
  unfold state_of. intros Hs. destruct (ps !! p) as [Q |] eqn:E; [| discriminate].
  by rewrite (lookup_app_l_Some _ _ _ _ E).
Qed.

Lemma sendMessage_spec (subject : string) (data : JsVal) (isResponseCallback : bool)
  (ext : option string) (uuid : string) (st : State) :
  sendMessage subject data isResponseCallback ext uuid st =
  (Return (length (promises st)),
   match hdr_append [] "messageId" (default uuid ext) with
   | Throw e =>
       set_trace (trace st ++ [EUnhandledRejection e])
         (set_promises (promises st ++ [{| pstate := Pending; racers := [] |}]) st)
   | Return head =>
       sent_state st (prepared isResponseCallback (default uuid ext) st) subject
         (attempt_send st data head)
   end).
Proof.
  unfold sendMessage, run_executor, prepared, sent_state.
  cbv [bind new_promise modify try_catch ret lift].
  destruct (hdr_append [] "messageId" (default uuid ext)) as [head | e]; [| reflexivity].
  destruct isResponseCallback; rewrite sign_and_publish_spec;
    unfold attempt_send, key_cache; simpl;
    (destruct (JwtValidator.sign (secretManager st) (privateKey st)) as [[token | e] pk];
     simpl; [| reflexivity]);
    (destruct (hdr_append head "serviceToken" token) as [head' | e]; simpl; [| reflexivity]);
    (destruct (connection st) as [cn |]; simpl; [| reflexivity]);
    (destruct (encode data) as [payload | e]; simpl; [| reflexivity]);
    destruct (publish_failure cn); reflexivity.
Qed.

Lemma sendRawMessage_spec (subject : string) (data : JsVal) (uuid : string) (st : State) :
  sendRawMessage subject data uuid st =
  (Return (length (promises st)),
   match hdr_append [] "messageId" uuid with
   | Throw e =>
       set_trace (trace st ++ [EUnhandledRejection e])
         (set_promises (promises st ++ [{| pstate := Pending; racers := [] |}]) st)
   | Return head =>
       sent_state st
         (set_callbacks
            (<[uuid := RawCallback (length (promises st))]> (responseCallbacksMap st))
            (set_promises (promises st ++ [{| pstate := Pending; racers := [] |}]) st))
         subject (attempt_send st data head)
   end).
Proof.
  unfold sendRawMessage, run_executor, sent_state.
  cbv [bind new_promise modify try_catch ret lift].
  destruct (hdr_append [] "messageId" uuid) as [head | e]; [| reflexivity].
  rewrite sign_and_publish_spec. unfold attempt_send, key_cache. simpl.
  destruct (JwtValidator.sign (secretManager st) (privateKey st)) as [[token | e] pk];
    simpl; [| reflexivity].
  destruct (hdr_append head "serviceToken" token) as [head' | e]; simpl; [| reflexivity].
  destruct (connection st) as [cn |]; simpl; [| reflexivity].
  destruct (encode data) as [payload | e]; simpl; [| reflexivity].
  destruct (publish_failure cn); reflexivity.
Qed.

Lemma hdr_get_appended (k v : string) (token : string) :
  hdr_get [(k, v); ("serviceToken", token)] "serviceToken"
  = if String.eqb k "serviceToken" then v else token.
Proof. simpl. by destruct (String.eqb k "serviceToken"). Qed.

(** [sendMessage] and [sendRawMessage] put the token where a receiver
    reads it: in the [serviceToken] header of the envelope. *)
Lemma send_token_in_headers (subject : string) (data : JsVal) (isResponseCallback : bool)
  (ext : option string) (uuid token : string) (payload : Bytes) (st : State) :
  attempt st data = inr (token, payload) ->
  has_line_break token = false ->
  has_line_break (default uuid ext) = false ->
  has_line_break uuid = false ->
  exists opts raw,
    trace (snd (sendMessage subject data isResponseCallback ext uuid st))
    = (trace st ++ [EPublish subject payload opts])%list /\
    received_header (envelope subject payload opts) "serviceToken" = Some (trim token) /\
    trace (snd (sendRawMessage subject data uuid st))
    = (trace st ++ [EPublish subject payload raw])%list /\
    received_header (envelope subject payload raw) "serviceToken" = Some (trim token).
Proof.
  intros Hok Htok Hid Huuid. rewrite sendMessage_spec, sendRawMessage_spec.
  rewrite (hdr_append_clean _ _ _ Hid), (hdr_append_clean _ _ _ Huuid).
  rewrite !(attempt_send_succeeds _ _ _ _ _ Hok Htok).
  do 2 eexists. simpl. repeat split; reflexivity.
Qed.

(** C2 (what the code does): [publish] hands the token to the transport as
    an option named [serviceToken], not as a header: the envelope has no
    headers at all, and a receiver reading the [serviceToken] header finds
    none. A consumer registered with [subscribe] fails on the missing
    headers, logs the failure and never calls its handler. *)
Theorem publish_token_outside_headers (subject : string) (data : JsVal)
  (reply : option string) (token : string) (payload : Bytes) (st : State) :
  attempt st data = inr (token, payload) ->
  exists opts,
    publish subject data reply st
    = (Return tt, set_trace (trace st ++ [EPublish subject payload opts])
                    (set_privateKey (key_cache st) st)) /\
    opt_serviceToken opts = Some token /\
    opt_headers opts = None /\
    received_header (envelope subject payload opts) "serviceToken" = None /\
    forall (cb : Handler) (receiver : State),
      subscribe_callback cb (envelope subject payload opts) receiver
      = (Return tt,
         set_trace (trace receiver ++ [EConsoleError [LogVal (exn_message TypeError)]])
           receiver).
Proof.
  intros Hok. rewrite publish_spec, Hok. eexists. split; [reflexivity |].
  repeat split; reflexivity.
Qed.

Lemma attempt_availableEvents (l : option (list string)) (st : State) (data : JsVal) :
  attempt (set_availableEvents l st) data = attempt st data.
Proof. reflexivity. Qed.

(** C3 (as amended): [publish] does not consult the allow-list: under any
    allow-list it does what it does without one; it never touches the
    table of pending callbacks; the allow-list is enforced where a
    subscription is made: [subscribe] throws for a subject that is not
    available, and subscribes nothing. *)
Theorem publish_has_no_access_control (subject : string) (data : JsVal)
  (reply : option string) (l : option (list string)) (st : State) :
  publish subject data reply (set_availableEvents l st)
  = (fst (publish subject data reply st),
     set_availableEvents l (snd (publish subject data reply st))) /\
  responseCallbacksMap (snd (publish subject data reply st)) = responseCallbacksMap st /\
  (not_available st subject = true ->
   subscribe subject st
   = (Throw (ErrorObj ("NATS ACL: subscription to " ++ dquote ++ subject ++ dquote
                         ++ " not allowed")), st)).
Proof.
  rewrite !publish_spec, attempt_availableEvents.
  split; [| split].
  - destruct (attempt st data) as [e | [token payload]]; reflexivity.
  - destruct (attempt st data) as [e | [token payload]]; reflexivity.
  - intros Hdenied. exec. rewrite Hdenied. reflexivity.
Qed.

End Sending.

(** ** The reply listener *)

Section ReplyListener.
Context `{Codec} `{Jwt} `{ProcessEnv}.

Lemma init_callback_absent (st : State) (msg : Msg) (h : Headers) :
  msg_headers msg = Some h ->
  responseCallbacksMap st !! hdr_get h "messageId" = None ->
  init_callback None msg st = (Return tt, st).
Proof.
  intros Hh Hnone. exec. rewrite Hh. cbv beta iota. rewrite Hnone. reflexivity.
Qed.

Lemma init_callback_falsy (st : State) (msg : Msg) (h : Headers)
  (cb : Callback) (message : JsVal) :
  msg_headers msg = Some h ->
  responseCallbacksMap st !! hdr_get h "messageId" = Some cb ->
  decode (msg_data msg) = Return message ->
  truthy message = false ->
  exists st1,
    init_callback None msg st = (Return tt, st1) /\
    trace st1 = (trace st ++ [ECallback (hdr_get h "messageId") cb VNull VUndefined VUndefined])%list /\
    responseCallbacksMap st1 = delete (hdr_get h "messageId") (responseCallbacksMap st) /\
    promises st1 = apply_callback cb VNull VUndefined VUndefined (promises st).
Proof.
  intros Hh Hcb Hdec Hf. exec. rewrite Hh. cbv beta iota. rewrite Hcb, Hdec, Hf. simpl.
  eexists. split; [reflexivity |]. simpl. auto.
Qed.

Lemma init_callback_rejected (st : State) (msg : Msg) (h : Headers)
  (cb : Callback) (message : JsVal) (e : Exn) :
  msg_headers msg = Some h ->
  responseCallbacksMap st !! hdr_get h "messageId" = Some cb ->
  decode (msg_data msg) = Return message ->
  truthy message = true ->
  JwtValidator.verify (hdr_get h "serviceToken") (secretManager st) = Throw e ->
  exists st1,
    init_callback None msg st = (Return tt, st1) /\
    trace st1 = (trace st ++
      [EVerify (hdr_get h "serviceToken");
       EConsoleError [LogVal (VStr "Reply validation failed:"); LogVal (exn_message e)];
       ECallback (hdr_get h "messageId") cb VNull (exn_message e) (VNum 401)])%list /\
    responseCallbacksMap st1 = delete (hdr_get h "messageId") (responseCallbacksMap st) /\
    promises st1 = apply_callback cb VNull (exn_message e) (VNum 401) (promises st).
Proof.
  intros Hh Hcb Hdec Ht Hv. exec. rewrite Hh. cbv beta iota. rewrite Hcb, Hdec, Ht. simpl.
  rewrite Hv. simpl.
  eexists. split; [reflexivity |]. simpl. rewrite <- !app_assoc. auto.
Qed.

Lemma init_callback_verified (st : State) (msg : Msg) (h : Headers)
  (cb : Callback) (message signer : JsVal) :
  msg_headers msg = Some h ->
  responseCallbacksMap st !! hdr_get h "messageId" = Some cb ->
  decode (msg_data msg) = Return message ->
  truthy message = true ->
  JwtValidator.verify (hdr_get h "serviceToken") (secretManager st) = Return signer ->
  exists st1,
    init_callback None msg st = (Return tt, st1) /\
    trace st1 = (trace st ++
      [EVerify (hdr_get h "serviceToken");
       ECallback (hdr_get h "messageId") cb (opt_member message "body")
         (opt_member message "error") (opt_member message "code")])%list /\
    responseCallbacksMap st1 = delete (hdr_get h "messageId") (responseCallbacksMap st) /\
    promises st1 = apply_callback cb (opt_member message "body")
                     (opt_member message "error") (opt_member message "code") (promises st).
Proof.
  intros Hh Hcb Hdec Ht Hv. exec. rewrite Hh. cbv beta iota. rewrite Hcb, Hdec, Ht. simpl.
  rewrite Hv. simpl.
  destruct message; try discriminate; simpl;
    (eexists; split; [reflexivity |]; simpl; rewrite <- !app_assoc; auto).
Qed.


Lemma apply_callback_resolves (cb : Callback) (body code : JsVal) (ps : list Promise) :
  state_of ps (callback_promise cb) = Some Pending ->
  state_of (apply_callback cb body VUndefined code ps) (callback_promise cb)
  = Some (Fulfilled body).
Proof.
  intros Hp. destruct cb; simpl in *; by apply settle_pending.
Qed.

(** The listener invokes the stored callback once for a reply it can
    decode, and removes the entry. *)
Lemma init_callback_present (st : State) (msg : Msg) (h : Headers)
  (cb : Callback) (message : JsVal) :
  msg_headers msg = Some h ->
  responseCallbacksMap st !! hdr_get h "messageId" = Some cb ->
  decode (msg_data msg) = Return message ->
  exists st1 new,
    init_callback None msg st = (Return tt, st1) /\
    trace st1 = (trace st ++ new)%list /\
    length (List.filter is_callback new) = 1%nat /\
    responseCallbacksMap st1 = delete (hdr_get h "messageId") (responseCallbacksMap st).
Proof.
  intros Hh Hcb Hdec. destruct (truthy message) eqn:Ht.
  - destruct (JwtValidator.verify (hdr_get h "serviceToken") (secretManager st))
      as [signer | e] eqn:Hv.
    + destruct (init_callback_verified st msg h cb message signer Hh Hcb Hdec Ht Hv)
        as (st1 & Hrun & Htr & Hmap & _).
      exists st1. eexists. repeat split; [exact Hrun | exact Htr | reflexivity | exact Hmap].
    + destruct (init_callback_rejected st msg h cb message e Hh Hcb Hdec Ht Hv)
        as (st1 & Hrun & Htr & Hmap & _).
      exists st1. eexists. repeat split; [exact Hrun | exact Htr | reflexivity | exact Hmap].
  - destruct (init_callback_falsy st msg h cb message Hh Hcb Hdec Ht)
      as (st1 & Hrun & Htr & Hmap & _).
    exists st1. eexists. repeat split; [exact Hrun | exact Htr | reflexivity | exact Hmap].
Qed.

(** A reply that cannot be decoded leaves everything as it was; the
    callback's promise is rejected with the decode error. *)
Lemma init_callback_undecodable (st : State) (msg : Msg) (h : Headers)
  (cb : Callback) (e : Exn) :
  msg_headers msg = Some h ->
  responseCallbacksMap st !! hdr_get h "messageId" = Some cb ->
  decode (msg_data msg) = Throw e ->
  init_callback None msg st = (Throw e, st).
Proof.
  intros Hh Hcb Hdec. exec. rewrite Hh. cbv beta iota. rewrite Hcb, Hdec. reflexivity.
Qed.

End ReplyListener.

(** ** Receiving *)

Section Receiving.
Context `{Codec} `{Jwt} `{ProcessEnv}.

Lemma not_available_unset (st : State) (subject : string) :
  availableEvents st = None -> not_available st subject = false.
Proof. unfold not_available. by intros ->. Qed.

Lemma not_available_outside (st : State) (l : list string) (subject : string) :
  availableEvents st = Some l -> subject ∉ l -> not_available st subject = true.
Proof.
  unfold not_available. intros -> Hnot. by rewrite bool_decide_eq_false_2.
Qed.

(** A request on an available subject goes on to the verification of its
    token and, once verified and decoded, to the handler. *)
Lemma getMessages_admitted (st : State) (subject : string) (cb : Handler)
  (noRespond : bool) (msg : Msg) (head : Headers) :
  response_head msg = Return head ->
  not_available st subject = false ->
  exists rest,
    effects_of (getMessages_callback subject cb noRespond msg) st
    = EVerify (default "" (received_header msg "serviceToken")) :: rest /\
    forall signer data,
      JwtValidator.verify (default "" (received_header msg "serviceToken"))
        (secretManager st) = Return signer ->
      decode (msg_data msg) = Return data ->
      exists rest', rest = EHandler data (msg_headers msg) :: rest'.
Proof.
  intros Hhead Hok. unfold effects_of. exec. rewrite Hhead, Hok. simpl.
  destruct (JwtValidator.verify _ (secretManager st)) as [signer | e] eqn:Hv; simpl.
  2:{ rewrite <- app_assoc, drop_app_length. eexists. split; [reflexivity |].
      intros ? ? [=]. }
  destruct noRespond; simpl;
    (destruct (decode (msg_data msg)) as [data | e] eqn:Hdec; simpl;
     [| rewrite <- app_assoc, drop_app_length;
        (eexists; split; [reflexivity | intros ? ? _ [=]])]).
  - destruct (cb data (msg_headers msg)) as [r | e]; simpl;
      rewrite <- !app_assoc, drop_app_length;
      (eexists; split; [reflexivity |]; intros ? ? _ [= <-]; eauto).
  - destruct (cb data (msg_headers msg)) as [r | e]; simpl.
    + destruct (encode r) as [payload | e]; simpl;
        rewrite <- !app_assoc, drop_app_length;
        (eexists; split; [reflexivity |]; intros ? ? _ [= <-]; eauto).
    + rewrite <- !app_assoc, drop_app_length.
      eexists; split; [reflexivity |]. intros ? ? _ [= <-]. eauto.
Qed.

(** The headers of a response: none, or the messageId of the request,
    trimmed; a messageId with a line break is refused. *)
Lemma response_head_cases (msg : Msg) :
  let messageId := default "" (received_header msg "messageId") in
  response_head msg
  = if String.eqb messageId "" then Return []
    else if has_line_break messageId then Throw BadHeader
         else Return [("messageId", trim messageId)].
Proof. reflexivity. Qed.

(** C9: with no allow-list every subject is admitted: the request goes on
    to token verification and to the handler. With an allow-list that
    does not hold the subject, a registration that responds sends the
    encoded object [forbidden_response], whose [body] is [null], [error]
    is "Forbidden" and [code] is 403, under the request's messageId, and
    calls no handler; a registration that does not respond throws a
    [ForbiddenException] in the guarded block of the callback, which logs
    it, and calls no handler either. (All this for a request whose
    messageId the headers of the response accept, [head] being these
    headers; a messageId with a line break, which no transport
    delivers, is refused by the headers before the allow-list is
    looked at, and the refusal is logged.) *)
Theorem inbound_access_control (st : State) (subject : string) (cb : Handler) (msg : Msg) :
  (forall head, response_head msg = Return head ->
   (availableEvents st = None ->
    forall noRespond,
    not_available st subject = false /\
    exists rest,
      effects_of (getMessages_callback subject cb noRespond msg) st
      = EVerify (default "" (received_header msg "serviceToken")) :: rest /\
      forall signer data,
        JwtValidator.verify (default "" (received_header msg "serviceToken"))
          (secretManager st) = Return signer ->
        decode (msg_data msg) = Return data ->
        exists rest', rest = EHandler data (msg_headers msg) :: rest') /\
   (forall l, availableEvents st = Some l -> subject ∉ l ->
    getMessages_callback subject cb false msg st
    = (Return tt,
       match encode forbidden_response with
       | Return payload => set_trace (trace st ++ [ERespond msg payload head]) st
       | Throw e => set_trace (trace st ++ [EConsoleError [LogExn e]]) st
       end) /\
    getMessages_try subject cb true msg st = (Throw ForbiddenException, st) /\
    getMessages_callback subject cb true msg st
    = (Return tt, set_trace (trace st ++ [EConsoleError [LogExn ForbiddenException]]) st))) /\
  (forall e noRespond, response_head msg = Throw e ->
   getMessages_callback subject cb noRespond msg st
   = (Return tt, set_trace (trace st ++ [EConsoleError [LogExn e]]) st)) /\
  (has_line_break (default "" (received_header msg "messageId")) = false ->
   exists head, response_head msg = Return head /\
                hdr_get head "messageId"
                = trim (default "" (received_header msg "messageId"))) /\
  member forbidden_response "body" = Return VNull /\
  member forbidden_response "error" = Return (VStr "Forbidden") /\
  member forbidden_response "code" = Return (VNum 403).
Proof.
  split; [| split; [| split]].
  - intros head Hhead. split.
    + intros Hnone noRespond. pose proof (not_available_unset st subject Hnone) as Hok.
      split; [exact Hok |]. by apply (getMessages_admitted st subject cb noRespond msg head).
    + intros l Hl Hnot. pose proof (not_available_outside st l subject Hl Hnot) as Hno.
      repeat split.
      * exec. rewrite Hhead, Hno. simpl. destruct (encode forbidden_response); reflexivity.
      * exec. rewrite Hhead, Hno. reflexivity.
      * exec. rewrite Hhead, Hno. reflexivity.
  - intros e noRespond Hhead. exec. rewrite Hhead. reflexivity.
  - intros Hclean. rewrite response_head_cases. cbv zeta.
    destruct (String.eqb_spec (default "" (received_header msg "messageId")) "") as [-> | _].
    + exists []. split; reflexivity.
    + rewrite Hclean. eexists. split; [reflexivity |]. reflexivity.
  - repeat split.
Qed.

End Receiving.

(** ** The three tables under the event loop *)

(** A cause that does not fit the change at hand. *)
Ltac absurd_cause H :=
  lazymatch type of H with
  | False => contradiction H
  | _ = Unchanged /\ _ => let E := fresh in destruct H as [E _]; discriminate E
  | _ /\ (exists r, _ /\ (_ \/ _)) =>
      let E := fresh in
      destruct H as (_ & ? & _ & [E | (? & E)]); discriminate E
  end.

Ltac watched := repeat (first [apply list_elem_of_here | apply list_elem_of_further]).

Section Moves.
Variables (id subject : string) (timeout : Z) (n p1 p2 p3 : nat).
Abbreviation aw := (awaiting id subject timeout n p1 p2 p3).

Lemma awaiting_lt m ps ts x :
  aw m ps ts -> x ∈ [p1; p2; p3] -> (x < length ps)%nat.
Proof.
  intros [H1 H2 H3 _ _ _ _ _] Hx.
  repeat (apply elem_of_cons in Hx as [-> | Hx]); try (by eapply state_of_lt).
  by apply elem_of_nil in Hx.
Qed.

(** A new promise is allocated. *)
Lemma awaiting_new_promise m ps ts P :
  racers P = [] -> aw m ps ts -> aw m (ps ++ [P]) ts.
Proof.
  intros Hnil [H1 H2 H3 Ht (P2 & HP2 & Hin) Hcb Hts Hrs].
  split; try assumption; try (by apply state_of_app).
  - exists P2. split; [by apply lookup_app_l_Some | exact Hin].
  - intros q Q r HQ Hr Hw. apply lookup_app_Some in HQ as [HQ | [_ HQ]].
    + eauto.
    + apply list_lookup_singleton_Some in HQ as [_ <-]. rewrite Hnil in Hr.
      by apply elem_of_nil in Hr.
Qed.

(** A callback is stored for a promise that is not one of the three. *)
Lemma awaiting_register m ps ts k cb :
  callback_promise cb ∉ [p1; p2; p3] -> aw m ps ts -> aw (<[k := cb]> m) ps ts.
Proof.
  intros Hfresh [H1 H2 H3 Ht Hf Hcb Hts Hrs].
  split; try assumption.
  intros k' cb' Hk' Hw. destruct (decide (k = k')) as [<- | Hne].
  - rewrite lookup_insert_eq in Hk'. injection Hk' as <-. contradiction.
  - rewrite lookup_insert_ne in Hk' by done. eauto.
Qed.

(** An entry is removed. *)
Lemma awaiting_delete m ps ts k :
  aw m ps ts -> aw (delete k m) ps ts.
Proof.
  intros [H1 H2 H3 Ht Hf Hcb Hts Hrs].
  split; try assumption.
  intros k' cb' Hk' Hw. apply lookup_delete_Some in Hk' as [_ Hk']. eauto.
Qed.

(** A promise that is not one of the three is settled. *)
Lemma awaiting_settle m ps ts q o :
  o <> Pending -> q ∉ [p1; p2; p3] -> aw m ps ts -> aw m (settle q o ps) ts.
Proof.
  intros Ho Hq Haw. pose proof Haw as [H1 H2 H3 Ht (P2 & HP2 & Hin) Hcb Hts Hrs].
  assert (Hkeep : forall x, x ∈ [p1; p2; p3] -> settle q o ps !! x = ps !! x).
  { intros x Hx. apply settle_other; [congruence |].
    intros Q HQ Hxr. destruct (Hrs q Q x HQ Hxr Hx) as [-> [-> | ->]];
      apply Hq; watched. }
  assert (Hracers : forall x Q, settle q o ps !! x = Some Q ->
                    exists Q', ps !! x = Some Q' /\ racers Q' = racers Q).
  { intros x Q HQ. pose proof (settle_racers_of o q x ps) as E.
    rewrite HQ in E. destruct (ps !! x) as [Q' |]; [| discriminate].
    injection E as E. eauto. }
  split; try assumption.
  - unfold state_of. rewrite Hkeep by watched. exact H1.
  - unfold state_of. rewrite Hkeep by watched. exact H2.
  - unfold state_of. rewrite Hkeep by watched. exact H3.
  - exists P2. split; [| exact Hin]. rewrite Hkeep by watched. exact HP2.
  - intros x Q r HQ Hr Hw. destruct (Hracers x Q HQ) as (Q' & HQ' & E).
    rewrite <- E in Hr. eauto.
Qed.

(** A timer is set for a promise that is not one of the three. *)
Lemma awaiting_new_timer m ps ts t :
  t_promise t ∉ [p1; p2; p3] -> aw m ps ts -> aw m ps (ts ++ [Some t]).
Proof.
  intros Hfresh [H1 H2 H3 Ht Hf Hcb Hts Hrs].
  split; try assumption.
  - by apply lookup_app_l_Some.
  - intros j t' Hj Hw. apply lookup_app_Some in Hj as [Hj | [_ Hj]]; [eauto |].
    apply list_lookup_singleton_Some in Hj as [_ [= <-]]. contradiction.
Qed.

(** Another timer has fired. *)
Lemma awaiting_clear_timer m ps ts j :
  j <> n -> aw m ps ts -> aw m ps (<[j := None]> ts).
Proof.
  intros Hne [H1 H2 H3 Ht Hf Hcb Hts Hrs].
  split; try assumption.
  - by rewrite list_lookup_insert_ne.
  - intros j' t' Hj' Hw. destruct (decide (j = j')) as [<- | Hjj].
    + apply list_lookup_insert_Some in Hj' as [[_ [[=] _]] | [? _]]. contradiction.
    + rewrite list_lookup_insert_ne in Hj' by done. eauto.
Qed.

(** A race that is not one of the three follows a promise. *)
Lemma awaiting_add_racer m ps ts r q :
  r ∉ [p1; p2; p3] -> aw m ps ts -> aw m (add_racer r q ps) ts.
Proof.
  intros Hr [H1 H2 H3 Ht (P2 & HP2 & Hin) Hcb Hts Hrs].
  unfold add_racer. destruct (ps !! q) as [Q |] eqn:HQ.
  2:{ split; eauto. }
  assert (Hstate : forall x s, state_of ps x = Some s ->
            state_of (<[q := {| pstate := pstate Q; racers := r :: racers Q |}]> ps) x = Some s).
  { intros x s Hx. unfold state_of in *. destruct (decide (q = x)) as [<- | Hqx].
    - rewrite list_lookup_insert_eq by (by eapply lookup_lt_Some).
      rewrite HQ in Hx. exact Hx.
    - by rewrite list_lookup_insert_ne. }
  split; try assumption; try (by apply Hstate).
  - destruct (decide (q = p2)) as [-> | Hq2].
    + eexists. rewrite list_lookup_insert_eq by (by eapply lookup_lt_Some).
      split; [reflexivity |]. simpl. rewrite HQ in HP2. injection HP2 as ->. by apply list_elem_of_further.
    + exists P2. by rewrite list_lookup_insert_ne.
  - intros x Q' r' HQ' Hr' Hw. destruct (decide (q = x)) as [<- | Hqx].
    + rewrite list_lookup_insert_eq in HQ' by (by eapply lookup_lt_Some).
      injection HQ' as <-. simpl in Hr'. apply elem_of_cons in Hr' as [-> | Hr'].
      * contradiction.
      * eauto.
    + rewrite list_lookup_insert_ne in HQ' by done. eauto.
Qed.

End Moves.

Section Tables.
Context `{Codec} `{Jwt} `{ProcessEnv}.

Lemma keeps_ret {A} (a : A) : keeps_tables (ret a).
Proof. by intros st. Qed.

Lemma keeps_throw {A} (e : Exn) : keeps_tables (@throw _ A e).
Proof. by intros st. Qed.

Lemma keeps_lift {A} (c : Completion A) : keeps_tables (lift c).
Proof. by intros st. Qed.

Lemma keeps_gets {A} (f : State -> A) : keeps_tables (gets f).
Proof. by intros st. Qed.

Lemma keeps_emit (e : Effect) : keeps_tables (emit e).
Proof. by intros st. Qed.

Lemma keeps_bind {A B} (m : M A) (k : A -> M B) :
  keeps_tables m -> (forall a, keeps_tables (k a)) -> keeps_tables (bind m k).
Proof.
  intros Hm Hk st. unfold bind. specialize (Hm st).
  destruct (m st) as [[a | e] st']; simpl in *; [| exact Hm].
  destruct (Hk a st') as (-> & -> & -> & ->). exact Hm.
Qed.

Lemma keeps_try_catch {A} (m : M A) (h : Exn -> M A) :
  keeps_tables m -> (forall e, keeps_tables (h e)) -> keeps_tables (try_catch m h).
Proof.
  intros Hm Hh st. unfold try_catch. specialize (Hm st).
  destruct (m st) as [[a | e] st']; simpl in *; [exact Hm |].
  destruct (Hh e st') as (-> & -> & -> & ->). exact Hm.
Qed.

Lemma keeps_sign : keeps_tables NatsService.sign.
Proof.
  intros st. unfold NatsService.sign.
  by destruct (JwtValidator.sign (secretManager st) (privateKey st)).
Qed.

Lemma keeps_modify_availableEvents l : keeps_tables (modify (set_availableEvents l)).
Proof. by intros st. Qed.

Lemma keeps_modify_secretManager m : keeps_tables (modify (set_secretManager m)).
Proof. by intros st. Qed.

Lemma keeps_modify_connection c : keeps_tables (modify (set_connection c)).
Proof. by intros st. Qed.

End Tables.

Create HintDb tables.
#[export] Hint Resolve keeps_ret keeps_throw keeps_lift keeps_gets keeps_emit keeps_sign
  keeps_modify_availableEvents keeps_modify_secretManager keeps_modify_connection : tables.

Ltac keeps :=
  repeat first
    [ progress (auto with tables)
    | apply keeps_bind; [| intros ?]
    | apply keeps_try_catch; [| intros ?]
    | match goal with
      | |- keeps_tables (match ?x with _ => _ end) => destruct x
      end ].

Section TablesOfOperations.
Context `{Codec} `{Jwt} `{ProcessEnv}.

Lemma keeps_verify token : keeps_tables (verify token).
Proof. unfold verify. keeps. Qed.

Lemma keeps_the_connection : keeps_tables the_connection.
Proof. unfold the_connection. keeps. Qed.

Lemma keeps_connection_publish cn subject payload opts :
  keeps_tables (connection_publish cn subject payload opts).
Proof. unfold connection_publish. keeps. Qed.

Lemma keeps_call_handler cb payload hdrs : keeps_tables (call_handler cb payload hdrs).
Proof. unfold call_handler. keeps. Qed.

Lemma keeps_respond msg payload head : keeps_tables (respond msg payload head).
Proof. unfold respond. keeps. Qed.

Hint Resolve keeps_verify keeps_the_connection keeps_connection_publish
  keeps_call_handler keeps_respond : tables.

Lemma keeps_publish subject data reply : keeps_tables (publish subject data reply).
Proof. unfold publish. keeps. Qed.

Lemma keeps_init : keeps_tables init.
Proof. unfold init. keeps. Qed.

Lemma keeps_subscribe subject : keeps_tables (subscribe subject).
Proof. unfold subscribe. keeps. Qed.

Lemma keeps_getMessages subject : keeps_tables (getMessages subject).
Proof. unfold getMessages. keeps. Qed.

Lemma keeps_subscribe_callback cb m : keeps_tables (subscribe_callback cb m).
Proof. unfold subscribe_callback. keeps. Qed.

Lemma keeps_getMessages_callback subject cb noRespond msg :
  keeps_tables (getMessages_callback subject cb noRespond msg).
Proof. unfold getMessages_callback, getMessages_try. keeps. Qed.

Lemma keeps_configureAvailableEvents l : keeps_tables (configureAvailableEvents l).
Proof. unfold configureAvailableEvents. keeps. Qed.

Lemma keeps_addAdditionalAvailableEvents l : keeps_tables (addAdditionalAvailableEvents l).
Proof. unfold addAdditionalAvailableEvents. keeps. Qed.

Lemma keeps_configureSecretManager m : keeps_tables (configureSecretManager m).
Proof. unfold configureSecretManager. keeps. Qed.

Lemma keeps_setConnection cn : keeps_tables (setConnection cn).
Proof. unfold setConnection. keeps. Qed.

End TablesOfOperations.

Section StepChanges.
Context `{Codec} `{Jwt} `{ProcessEnv}.

Lemma outcome_settled (cb : Callback) (body error code : JsVal) :
  outcome cb body error code <> Pending.
Proof. unfold outcome. destruct (truthy error); discriminate. Qed.

Lemma apply_callback_outcome (cb : Callback) (body error code : JsVal) (ps : list Promise) :
  apply_callback cb body error code ps
  = settle (callback_promise cb) (outcome cb body error code) ps.
Proof. unfold outcome. destruct cb; simpl; destruct (truthy error); reflexivity. Qed.

Lemma apply_callback_settle (cb : Callback) (body error code : JsVal) (ps : list Promise) :
  exists o, o <> Pending /\
    apply_callback cb body error code ps = settle (callback_promise cb) o ps.
Proof.
  exists (outcome cb body error code).
  split; [apply outcome_settled | apply apply_callback_outcome].
Qed.

Lemma keeps_changes {A} (m : M A) (st : State) :
  keeps_tables m ->
  changes Unchanged (responseCallbacksMap st) (promises st) (timers st)
    (responseCallbacksMap (snd (m st))) (promises (snd (m st))) (timers (snd (m st))) /\
  turns Idle (suspended st) (suspended (snd (m st))).
Proof. intros Hk. destruct (Hk st) as (-> & -> & -> & ->). split; constructor. Qed.

Lemma hdr_append_cases (h : Headers) (k v : string) :
  hdr_append h k v
  = if has_line_break v then Throw BadHeader else Return (h ++ [(k, trim v)])%list.
Proof. reflexivity. Qed.

(** The tables after a send, whatever its fallible steps come to. *)
Lemma sent_state_tables (st registered : State) (subject : string)
  (r : Exn + Headers * Bytes) :
  responseCallbacksMap (sent_state st registered subject r) = responseCallbacksMap registered /\
  promises (sent_state st registered subject r) = promises registered /\
  timers (sent_state st registered subject r) = timers registered /\
  suspended (sent_state st registered subject r) = suspended registered.
Proof. by destruct r as [e | [head payload]]. Qed.

Lemma sendMessageWithTimeout_spec (subject : string) (timeout : Z) (data : JsVal)
  (uuid : string) (st : State) :
  let L := length (promises st) in
  let st1 := snd (sendMessageWithTimeout subject timeout data uuid st) in
  fst (sendMessageWithTimeout subject timeout data uuid st) = Return (S (S L)) /\
  responseCallbacksMap st1
  = (if has_line_break uuid then responseCallbacksMap st
     else <[uuid := SendCallback L]> (responseCallbacksMap st)) /\
  promises st1
  = add_racer (S (S L)) (S L)
      (add_racer (S (S L)) L
         (((promises st ++ [pending_promise]) ++ [pending_promise]) ++ [pending_promise])) /\
  timers st1 = (timers st ++ [Some {| t_messageId := uuid; t_subject := subject;
                                      t_promise := S L; t_delay := timeout |}])%list /\
  suspended st1 = suspended st /\
  trace st1 = trace (snd (sendMessage subject data true (Some uuid) uuid st)).
Proof.
  intros L st1. subst st1. unfold sendMessageWithTimeout.
  cbv [bind]. rewrite sendMessage_spec. cbn [default from_option id snd].
  match goal with
  | |- context [match hdr_append [] "messageId" uuid with
                | Return h => @?f h
                | Throw e => @?g e
                end] =>
      set (st' := match hdr_append [] "messageId" uuid with
                  | Return h => f h
                  | Throw e => g e
                  end)
  end.
  assert (Hps : promises st' = (promises st ++ [pending_promise])%list).
  { subst st'. destruct (hdr_append [] "messageId" uuid); [| reflexivity].
    by rewrite (proj1 (proj2 (sent_state_tables _ _ _ _))). }
  assert (Hm : responseCallbacksMap st'
               = if has_line_break uuid then responseCallbacksMap st
                 else <[uuid := SendCallback L]> (responseCallbacksMap st)).
  { subst st'. rewrite hdr_append_cases. destruct (has_line_break uuid); [reflexivity |].
    by rewrite (proj1 (sent_state_tables _ _ _ _)). }
  assert (Hts : timers st' = timers st).
  { subst st'. destruct (hdr_append [] "messageId" uuid); [| reflexivity].
    by rewrite (proj1 (proj2 (proj2 (sent_state_tables _ _ _ _)))). }
  assert (Hss : suspended st' = suspended st).
  { subst st'. destruct (hdr_append [] "messageId" uuid); [| reflexivity].
    by rewrite (proj2 (proj2 (proj2 (sent_state_tables _ _ _ _)))). }
  clearbody st'. cbv [new_promise modify race]. simpl.
  rewrite Hps, Hm, Hts, Hss. rewrite !length_app. simpl.
  replace (length (promises st) + 1)%nat with (S L) by (subst L; lia).
  replace (S L + 1)%nat with (S (S L)) by lia.
  assert (E1 : state_of ((promises st ++ [pending_promise]) ++ [pending_promise]) L
               = Some Pending).
  { apply state_of_app. apply state_of_fresh. }
  assert (E2 : state_of ((promises st ++ [pending_promise]) ++ [pending_promise]) (S L)
               = Some Pending).
  { replace (S L) with (length (promises st ++ [pending_promise]))
      by (rewrite length_app; simpl; subst L; lia).
    apply state_of_fresh. }
  fold L. change {| pstate := Pending; racers := [] |} with pending_promise.
  rewrite E1, E2. auto 10.
Qed.

Lemma init_callback_tables (st : State) (msg : Msg) (h : Headers)
  (cb : Callback) (message : JsVal) :
  msg_headers msg = Some h ->
  responseCallbacksMap st !! hdr_get h "messageId" = Some cb ->
  decode (msg_data msg) = Return message ->
  exists body error code,
    fst (init_callback None msg st) = Return tt /\
    responseCallbacksMap (snd (init_callback None msg st))
    = delete (hdr_get h "messageId") (responseCallbacksMap st) /\
    promises (snd (init_callback None msg st))
    = apply_callback cb body error code (promises st) /\
    timers (snd (init_callback None msg st)) = timers st.
Proof.
  intros Hh Hcb Hdec. exec. rewrite Hh. cbv beta iota. rewrite Hcb, Hdec.
  destruct (truthy message) eqn:Ht; simpl.
  - destruct (JwtValidator.verify (hdr_get h "serviceToken") (secretManager st)); simpl.
    + destruct message; try discriminate; simpl; eauto 10.
    + eauto 10.
  - eauto 10.
Qed.

(** *** The reply listener in the event loop *)

(** A delivery suspends a run when it finds a callback under its
    messageId, and changes nothing else. *)
Lemma deliver_spec (error : option Exn) (msg : Msg) (st : State) :
  step (Reply error msg) st =
  match error with
  | Some err => set_trace (trace st ++ [EConsoleError [LogExn err]]) st
  | None =>
      match msg_headers msg with
      | None => set_trace (trace st ++ [EUnhandledRejection TypeError]) st
      | Some h =>
          match responseCallbacksMap st !! hdr_get h "messageId" with
          | Some fn =>
              set_suspended
                (suspended st ++
                 [Some (AwaitDecode (hdr_get h "messageId") (hdr_get h "serviceToken") fn
                          (decode (msg_data msg)))]) st
          | None => st
          end
      end
  end.
Proof.
  unfold step. exec. destruct error as [err |]; [reflexivity |].
  destruct (msg_headers msg) as [h |]; [| reflexivity].
  cbv beta iota. destruct (responseCallbacksMap st !! hdr_get h "messageId"); reflexivity.
Qed.

Lemma insert_snoc {A} (l : list A) (x y : A) :
  <[length l := y]> (l ++ [x])%list = (l ++ [y])%list.
Proof.
  rewrite insert_app_r_alt by lia. by rewrite Nat.sub_diag.
Qed.

(** The resumption of a run: the run goes on from its [await]; what it
    throws is nobody's to catch. *)
Lemma resume_spec (n : nat) (st : State) :
  step (Resume n) st =
  match suspended st !! n with
  | Some (Some r) =>
      match init_callback_resume r (set_suspended (<[n := None]> (suspended st)) st) with
      | (Return (Some r'), st1) => set_suspended (<[n := Some r']> (suspended st1)) st1
      | (Return None, st1) => st1
      | (Throw e, st1) => set_trace (trace st1 ++ [EUnhandledRejection e]) st1
      end
  | _ => st
  end.
Proof.
  unfold step, run_executor, resume. cbv [bind gets modify try_catch ret].
  destruct (suspended st !! n) as [[r |] |]; [| reflexivity | reflexivity].
  destruct (init_callback_resume r _) as [[[r' |] | e] st1]; reflexivity.
Qed.

(** What a resumed run does to the tables: it ends on a payload that
    does not decode, or goes on to its second [await], or calls the
    callback it holds and deletes the entry of its id. *)
Lemma resume_tables (n : nat) (r : Suspended) (st : State) :
  suspended st !! n = Some (Some r) ->
  let st' := step (Resume n) st in
  timers st' = timers st /\
  ((responseCallbacksMap st' = responseCallbacksMap st /\ promises st' = promises st /\
    suspended st' = <[n := None]> (suspended st)) \/
   (exists r', run_id r' = run_id r /\ run_fn r' = run_fn r /\
      responseCallbacksMap st' = responseCallbacksMap st /\ promises st' = promises st /\
      suspended st' = <[n := Some r']> (suspended st)) \/
   (exists body error code,
      responseCallbacksMap st' = delete (run_id r) (responseCallbacksMap st) /\
      promises st' = apply_callback (run_fn r) body error code (promises st) /\
      suspended st' = <[n := None]> (suspended st))).
Proof.
  intros Hn st'. subst st'. rewrite resume_spec, Hn.
  destruct r as [id tok fn [message | e] | id fn message [signer | e]]; exec.
  - destruct (truthy message); simpl.
    + split; [reflexivity |]. right. left.
      exists (AwaitVerify id fn message (JwtValidator.verify tok (secretManager st))).
      repeat split; simpl; by rewrite ?list_insert_insert_eq.
    + split; [reflexivity |]. right. right. do 3 eexists. repeat split.
  - simpl. split; [reflexivity |]. left. auto.
  - destruct message; simpl; (split; [reflexivity |]); right; right;
      do 3 eexists; repeat split.
  - simpl. split; [reflexivity |]. right. right. do 3 eexists. repeat split.
Qed.

(** A reply whose run of the listener is resumed at once, and again,
    with nothing in between, does what the callback does run from its
    call to its end; the slot of the run stays behind, empty. *)
Lemma uninterrupted_reply (msg : Msg) (h : Headers) (cb : Callback) (st : State) :
  msg_headers msg = Some h ->
  responseCallbacksMap st !! hdr_get h "messageId" = Some cb ->
  run [Reply None msg; Resume (length (suspended st)); Resume (length (suspended st))] st
  = set_suspended (suspended st ++ [None])
      (snd (run_executor (init_callback None msg) st)).
Proof.
  intros Hh Hcb. unfold run. cbn [foldl].
  remember (step (Reply None msg) st) as s1 eqn:E1.
  rewrite deliver_spec, Hh, Hcb in E1.
  remember (step (Resume (length (suspended st))) s1) as s2 eqn:E2.
  rewrite resume_spec in E2. subst s1. cbn [suspended set_suspended] in E2.
  rewrite list_lookup_middle in E2 by reflexivity. rewrite insert_snoc in E2.
  rewrite resume_spec.
  exec. exec_in E2. rewrite Hh. cbv beta iota. rewrite Hcb.
  destruct (decode (msg_data msg)) as [message | e].
  2:{ subst s2. simpl. rewrite list_lookup_middle by reflexivity. reflexivity. }
  cbv beta iota in E2 |- *.
  destruct (truthy message) eqn:Ht; cbn [negb] in E2 |- *; cbv beta iota in E2 |- *.
  2:{ simpl in E2. subst s2. simpl.
      rewrite list_lookup_middle by reflexivity. reflexivity. }
  simpl in E2. rewrite insert_snoc in E2. subst s2. cbn [suspended set_suspended set_trace].
  rewrite list_lookup_middle by reflexivity. rewrite insert_snoc. simpl.
  destruct (JwtValidator.verify (hdr_get h "serviceToken") (secretManager st)); simpl.
  - destruct message; try discriminate; reflexivity.
  - reflexivity.
Qed.

Theorem step_changes (ev : Event) (st : State) :
  exists c t,
    causes st ev c t /\
    changes c (responseCallbacksMap st) (promises st) (timers st)
      (responseCallbacksMap (step ev st)) (promises (step ev st)) (timers (step ev st)) /\
    turns t (suspended st) (suspended (step ev st)).
Proof.
  destruct ev.
  1-8, 14-15:
    exists Unchanged, Idle; (split; [exact I |]); unfold step; apply keeps_changes;
    first [ apply keeps_configureAvailableEvents | apply keeps_addAdditionalAvailableEvents
          | apply keeps_configureSecretManager | apply keeps_setConnection
          | apply keeps_init | apply keeps_publish | apply keeps_subscribe
          | apply keeps_getMessages | apply keeps_getMessages_callback
          | apply keeps_subscribe_callback ].
  - unfold step. rewrite sendMessage_spec. cbn [snd].
    destruct (hdr_append [] "messageId" (default uuid externalMessageId)) as [head | e].
    2:{ exists Allocated, Idle. split; [exact I |]. simpl. split; constructor. }
    destruct (sent_state_tables st (prepared isResponseCallback (default uuid externalMessageId) st)
                subject (attempt_send st data head)) as (-> & -> & -> & ->).
    destruct isResponseCallback.
    + exists (Registered (default uuid externalMessageId) (SendCallback (length (promises st)))),
        Idle.
      split; [left; eauto 10 |]. simpl. split; by constructor.
    + exists Detached, Idle. split; [simpl; eauto 10 |]. simpl. split; constructor.
  - unfold step. rewrite sendRawMessage_spec. cbn [snd].
    destruct (hdr_append [] "messageId" uuid) as [head | e].
    2:{ exists Allocated, Idle. split; [exact I |]. simpl. split; constructor. }
    match goal with
    | |- context [sent_state st ?reg subject ?r] =>
        destruct (sent_state_tables st reg subject r) as (-> & -> & -> & ->)
    end.
    exists (Registered uuid (RawCallback (length (promises st)))), Idle.
    split; [right; eauto |]. simpl. split; by constructor.
  - unfold step.
    destruct (sendMessageWithTimeout_spec subject timeout data uuid st)
      as (_ & -> & -> & -> & -> & _).
    destruct (has_line_break uuid).
    + exists (TimedUnregistered {| t_messageId := uuid; t_subject := subject;
                                   t_promise := S (length (promises st));
                                   t_delay := timeout |}), Idle.
      split; [simpl; eauto |]. split; by constructor.
    + exists (Timed uuid {| t_messageId := uuid; t_subject := subject;
                            t_promise := S (length (promises st)); t_delay := timeout |}),
        Idle.
      split; [simpl; eauto |]. split; by constructor.
  - rewrite deliver_spec. destruct error as [err |].
    { exists Unchanged, Idle. split; [exact I |]. simpl. split; constructor. }
    destruct (msg_headers msg) as [h |] eqn:Hh.
    2:{ exists Unchanged, Idle. split; [exact I |]. simpl. split; constructor. }
    destruct (responseCallbacksMap st !! hdr_get h "messageId") as [fn |] eqn:Hfn.
    2:{ exists Unchanged, Idle. split; [exact I |]. split; constructor. }
    exists Unchanged,
      (Spawned (AwaitDecode (hdr_get h "messageId") (hdr_get h "serviceToken") fn
                  (decode (msg_data msg)))).
    split; [simpl; eauto 10 |]. simpl. split; constructor.
  - destruct (suspended st !! n) as [[r |] |] eqn:Hn.
    2,3: exists Unchanged, Idle; (split; [exact I |]); rewrite resume_spec, Hn;
         split; constructor.
    destruct (resume_tables n r st Hn) as (Hts & Hcases).
    destruct Hcases as [(Hm & Hps & Hss) | [(r' & Hid & Hfn & Hm & Hps & Hss)
                                           | (body & error & code & Hm & Hps & Hss)]].
    + exists Unchanged, (Ended n). split; [simpl; eauto 10 |].
      rewrite Hts, Hm, Hps, Hss. split; [constructor | by econstructor].
    + exists Unchanged, (Advanced n r'). split; [simpl; auto |].
      rewrite Hts, Hm, Hps, Hss. split; [constructor | by econstructor].
    + exists (Settled (run_id r) (run_fn r) (outcome (run_fn r) body error code)), (Ended n).
      split; [simpl; eauto 10 |].
      rewrite Hts, Hm, Hps, Hss, apply_callback_outcome.
      split; [constructor; apply outcome_settled | by econstructor].
  - unfold step. exec. destruct (timers st !! n) as [[t |] |] eqn:Hn; simpl.
    + exists (Fired n t), Idle. split; [reflexivity |]. split; by constructor.
    + exists Unchanged, Idle. split; [exact I |]. split; constructor.
    + exists Unchanged, Idle. split; [exact I |]. split; constructor.
Qed.

End StepChanges.

Section Bounded.

Lemma bounded_new_promise m ps ts P :
  racers P = [] -> bounded m ps ts -> bounded m (ps ++ [P]) ts.
Proof.
  intros Hnil (Hcb & Hrs & Hts). unfold bounded. rewrite length_app. simpl.
  split; [| split].
  - intros k cb Hk. specialize (Hcb k cb Hk). lia.
  - intros q Q r HQ Hr. apply lookup_app_Some in HQ as [HQ | [_ HQ]].
    + specialize (Hrs q Q r HQ Hr). lia.
    + apply list_lookup_singleton_Some in HQ as [_ <-]. rewrite Hnil in Hr.
      by apply elem_of_nil in Hr.
  - intros j t Hj. specialize (Hts j t Hj). lia.
Qed.

Lemma bounded_register m ps ts k cb :
  (callback_promise cb < length ps)%nat -> bounded m ps ts -> bounded (<[k := cb]> m) ps ts.
Proof.
  intros Hlt (Hcb & Hrs & Hts). split; [| by split].
  intros k' cb' Hk'. destruct (decide (k = k')) as [<- | Hne].
  - rewrite lookup_insert_eq in Hk'. by injection Hk' as <-.
  - rewrite lookup_insert_ne in Hk' by done. eauto.
Qed.

Lemma bounded_delete m ps ts k : bounded m ps ts -> bounded (delete k m) ps ts.
Proof.
  intros (Hcb & Hrs & Hts). split; [| by split].
  intros k' cb' Hk'. apply lookup_delete_Some in Hk' as [_ Hk']. eauto.
Qed.

Lemma bounded_settle m ps ts q o : bounded m ps ts -> bounded m (settle q o ps) ts.
Proof.
  intros (Hcb & Hrs & Hts). unfold bounded. rewrite settle_length.
  split; [exact Hcb | split; [| exact Hts]].
  intros x Q r HQ Hr. pose proof (settle_racers_of o q x ps) as E.
  rewrite HQ in E. destruct (ps !! x) as [Q' |] eqn:HQ'; [| discriminate].
  injection E as E. rewrite E in Hr. eauto.
Qed.

Lemma bounded_new_timer m ps ts t :
  (t_promise t < length ps)%nat -> bounded m ps ts -> bounded m ps (ts ++ [Some t]).
Proof.
  intros Hlt (Hcb & Hrs & Hts). split; [exact Hcb | split; [exact Hrs |]].
  intros j t' Hj. apply lookup_app_Some in Hj as [Hj | [_ Hj]]; [eauto |].
  by apply list_lookup_singleton_Some in Hj as [_ [= <-]].
Qed.

Lemma bounded_clear_timer m ps ts j : bounded m ps ts -> bounded m ps (<[j := None]> ts).
Proof.
  intros (Hcb & Hrs & Hts). split; [exact Hcb | split; [exact Hrs |]].
  intros j' t' Hj'. destruct (decide (j = j')) as [<- | Hjj].
  - apply list_lookup_insert_Some in Hj' as [[_ [[=] _]] | [? _]]. contradiction.
  - rewrite list_lookup_insert_ne in Hj' by done. eauto.
Qed.

Lemma add_racer_length r q ps : length (add_racer r q ps) = length ps.
Proof.
  unfold add_racer. destruct (ps !! q); [apply length_insert | reflexivity].
Qed.

Lemma bounded_add_racer m ps ts r q :
  (r < length ps)%nat -> bounded m ps ts -> bounded m (add_racer r q ps) ts.
Proof.
  intros Hlt (Hcb & Hrs & Hts). unfold bounded. rewrite add_racer_length.
  split; [exact Hcb | split; [| exact Hts]].
  unfold add_racer. destruct (ps !! q) as [Q |] eqn:HQ; [| exact Hrs].
  intros x Q' r' HQ' Hr'. destruct (decide (q = x)) as [<- | Hqx].
  - rewrite list_lookup_insert_eq in HQ' by (by eapply lookup_lt_Some).
    injection HQ' as <-. simpl in Hr'. apply elem_of_cons in Hr' as [-> | Hr']; eauto.
  - rewrite list_lookup_insert_ne in HQ' by done. eauto.
Qed.

Lemma bounded_changes c m ps ts m' ps' ts' :
  changes c m ps ts m' ps' ts' -> bounded m ps ts -> bounded m' ps' ts'.
Proof.
  intros Hc Hb. destruct Hc as
    [m ps ts | m ps ts | k cb m ps ts Hcb | m ps ts | k t m ps ts Hk Ht | t m ps ts Ht
     | k cb o m ps ts Ho | j t m ps ts Hj].
  - exact Hb.
  - by apply bounded_new_promise.
  - apply bounded_register; [rewrite length_app; simpl; lia |].
    by apply bounded_new_promise.
  - apply bounded_settle. by apply bounded_new_promise.
  - apply bounded_register; [rewrite ?add_racer_length, !length_app; simpl; lia |].
    apply bounded_new_timer; [rewrite ?add_racer_length, !length_app; simpl; lia |].
    apply bounded_add_racer; [rewrite ?add_racer_length, !length_app; simpl; lia |].
    apply bounded_add_racer; [rewrite !length_app; simpl; lia |].
    do 3 (apply bounded_new_promise; [reflexivity |]). exact Hb.
  - apply bounded_new_timer; [rewrite ?add_racer_length, !length_app; simpl; lia |].
    apply bounded_add_racer; [rewrite ?add_racer_length, !length_app; simpl; lia |].
    apply bounded_add_racer; [rewrite !length_app; simpl; lia |].
    do 3 (apply bounded_new_promise; [reflexivity |]). exact Hb.
  - by apply bounded_delete, bounded_settle.
  - by apply bounded_delete, bounded_settle, bounded_clear_timer.
Qed.

Lemma changes_unchanged m ps ts m' ps' ts' :
  changes Unchanged m ps ts m' ps' ts' -> m' = m /\ ps' = ps /\ ts' = ts.
Proof. by inversion 1. Qed.

(** No change frees a promise. *)
Lemma changes_length c m ps ts m' ps' ts' :
  changes c m ps ts m' ps' ts' -> (length ps <= length ps')%nat.
Proof.
  intros Hc. destruct Hc; rewrite ?settle_length, ?add_racer_length, ?length_app;
    simpl; lia.
Qed.

(** The callbacks held by suspended runs stay those of allocated
    promises, a run being spawned with a callback of the table. *)
Lemma bounded_runs_turns t rs rs' ps ps' :
  turns t rs rs' ->
  (length ps <= length ps')%nat ->
  (forall r, t = Spawned r -> (callback_promise (run_fn r) < length ps)%nat) ->
  bounded_runs ps rs -> bounded_runs ps' rs'.
Proof.
  intros Ht Hle Hspawn Hb. destruct Ht as [rs | r rs | j r r' rs Hj Hid Hfn | j r rs Hj].
  - intros j r Hj. specialize (Hb j r Hj). lia.
  - intros j r' Hj. apply lookup_app_Some in Hj as [Hj | [_ Hj]].
    + specialize (Hb j r' Hj). lia.
    + apply list_lookup_singleton_Some in Hj as [_ [= <-]].
      specialize (Hspawn r eq_refl). lia.
  - intros j' r0 Hj'. destruct (decide (j = j')) as [<- | Hne].
    + rewrite list_lookup_insert_eq in Hj' by (by eapply lookup_lt_Some).
      injection Hj' as <-. rewrite Hfn. specialize (Hb j r Hj). lia.
    + rewrite list_lookup_insert_ne in Hj' by done. specialize (Hb j' r0 Hj'). lia.
  - intros j' r0 Hj'. destruct (decide (j = j')) as [<- | Hne].
    + rewrite list_lookup_insert_eq in Hj' by (by eapply lookup_lt_Some). discriminate.
    + rewrite list_lookup_insert_ne in Hj' by done. specialize (Hb j' r0 Hj'). lia.
Qed.

End Bounded.

Section Awaiting.
Variables (id subject : string) (timeout : Z) (n p1 p2 p3 : nat).
Abbreviation aw' := (awaiting id subject timeout n p1 p2 p3).

(** While the request is awaited, only a callback of one of its
    promises or the timer [n] can end the wait. *)
Lemma awaiting_changes c m ps ts m' ps' ts' :
  changes c m ps ts m' ps' ts' ->
  (forall k cb o, c = Settled k cb o -> callback_promise cb ∉ [p1; p2; p3]) ->
  (forall j t, c = Fired j t -> j <> n) ->
  aw' m ps ts -> aw' m' ps' ts'.
Proof.
  intros Hc Hreply Htimer Haw.
  assert (Hlt : forall x, x ∈ [p1; p2; p3] -> (x < length ps)%nat)
    by (intros x; by apply (awaiting_lt id subject timeout n p1 p2 p3 m ps ts)).
  assert (Hfresh : forall x, (length ps <= x)%nat -> x ∉ [p1; p2; p3])
    by (intros x Hle Hin; specialize (Hlt x Hin); lia).
  destruct Hc as
    [m ps ts | m ps ts | k cb m ps ts Hcb | m ps ts | k t m ps ts Hk Ht | t m ps ts Ht
     | k cb o m ps ts Ho | j t m ps ts Hj].
  - exact Haw.
  - by apply awaiting_new_promise.
  - apply awaiting_register; [rewrite Hcb; by apply Hfresh |].
    by apply awaiting_new_promise.
  - apply awaiting_settle; [discriminate | by apply Hfresh |].
    by apply awaiting_new_promise.
  - apply awaiting_register; [by apply Hfresh |].
    apply awaiting_new_timer; [rewrite Ht; apply Hfresh; lia |].
    apply awaiting_add_racer; [apply Hfresh; lia |].
    apply awaiting_add_racer; [apply Hfresh; lia |].
    do 3 (apply awaiting_new_promise; [reflexivity |]). exact Haw.
  - apply awaiting_new_timer; [rewrite Ht; apply Hfresh; lia |].
    apply awaiting_add_racer; [apply Hfresh; lia |].
    apply awaiting_add_racer; [apply Hfresh; lia |].
    do 3 (apply awaiting_new_promise; [reflexivity |]). exact Haw.
  - apply awaiting_delete, awaiting_settle; [exact Ho | | exact Haw].
    by apply (Hreply k cb o).
  - apply awaiting_delete, awaiting_settle; [discriminate | |].
    + intros Hin. apply (Htimer j t eq_refl).
      by apply (aw_timers _ _ _ _ _ _ _ _ _ _ Haw j t).
    + apply awaiting_clear_timer; [by apply (Htimer j t) | exact Haw].
Qed.

End Awaiting.

(** A [sendMessageWithTimeout] in a bounded state starts the wait. *)
Lemma awaiting_established (k : string) (t : Timer) m ps ts m' ps' ts' :
  changes (Timed k t) m ps ts m' ps' ts' ->
  bounded m ps ts ->
  awaiting k (t_subject t) (t_delay t) (length ts)
    (length ps) (S (length ps)) (S (S (length ps))) m' ps' ts'.
Proof.
  intros Hc (Hcb & Hrs & Hts). inversion Hc as [| | | | ? ? ? ? ? Hk Ht | | |]; subst.
  set (L := length ps) in *.
  set (ps3 := (((ps ++ [pending_promise]) ++ [pending_promise]) ++ [pending_promise])%list).
  assert (Hlen : length ps3 = S (S (S L)))
    by (subst ps3 L; rewrite !length_app; simpl; lia).
  assert (H0 : ps3 !! L = Some pending_promise).
  { subst ps3. do 2 (apply lookup_app_l_Some). by apply list_lookup_middle. }
  assert (H1 : ps3 !! S L = Some pending_promise).
  { subst ps3. apply lookup_app_l_Some. apply list_lookup_middle.
    rewrite length_app. simpl. subst L. lia. }
  assert (H2 : ps3 !! S (S L) = Some pending_promise).
  { subst ps3. apply list_lookup_middle. rewrite !length_app. simpl. subst L. lia. }
  assert (Hold : forall q Q, ps3 !! q = Some Q -> (q < L)%nat -> ps !! q = Some Q).
  { intros q Q HQ Hq. subst ps3.
    rewrite !lookup_app_l in HQ by (rewrite ?length_app; simpl; subst L; lia). exact HQ. }
  assert (Hnew : forall q Q, ps3 !! q = Some Q -> (L <= q)%nat -> Q = pending_promise).
  { intros q Q HQ Hq.
    assert (Hq3 : (q < S (S (S L)))%nat) by (rewrite <- Hlen; by eapply lookup_lt_Some).
    assert (q = L \/ q = S L \/ q = S (S L)) as [-> | [-> | ->]] by lia; congruence. }
  unfold add_racer. rewrite H0.
  rewrite list_lookup_insert_ne by lia. rewrite H1.
  set (ps4 := <[S L := _]> (<[L := _]> ps3)).
  assert (G0 : ps4 !! L = Some {| pstate := Pending; racers := [S (S L)] |}).
  { subst ps4. rewrite list_lookup_insert_ne by lia.
    apply list_lookup_insert_eq. lia. }
  assert (G1 : ps4 !! S L = Some {| pstate := Pending; racers := [S (S L)] |}).
  { subst ps4. apply list_lookup_insert_eq. rewrite length_insert. lia. }
  assert (G2 : ps4 !! S (S L) = Some pending_promise).
  { subst ps4. rewrite !list_lookup_insert_ne by lia. exact H2. }
  assert (Gold : forall q Q, ps4 !! q = Some Q -> q <> L -> q <> S L -> ps3 !! q = Some Q).
  { intros q Q HQ Hq0 Hq1. subst ps4. by rewrite !list_lookup_insert_ne in HQ by lia. }
  split.
  - unfold state_of. by rewrite G0.
  - unfold state_of. by rewrite G1.
  - unfold state_of. by rewrite G2.
  - rewrite list_lookup_middle by reflexivity. by destruct t; simpl in *; subst.
  - eexists. split; [exact G1 |]. simpl. apply list_elem_of_here.
  - intros k' cb' Hk' Hw. destruct (decide (t_messageId t = k')) as [<- | Hne].
    + rewrite lookup_insert_eq in Hk'. by injection Hk' as <-.
    + rewrite lookup_insert_ne in Hk' by done. specialize (Hcb k' cb' Hk').
      exfalso. repeat (apply elem_of_cons in Hw as [Hw | Hw]); try lia.
      by apply elem_of_nil in Hw.
  - intros j t' Hj Hw. apply lookup_app_Some in Hj as [Hj | [Hle Hj]].
    + specialize (Hts j t' Hj).
      exfalso. repeat (apply elem_of_cons in Hw as [Hw | Hw]); try lia.
      by apply elem_of_nil in Hw.
    + apply list_lookup_singleton_Some in Hj as [Hj _]. lia.
  - intros q Q r HQ Hr Hw.
    destruct (decide (q = L)) as [-> | Hq0].
    { rewrite G0 in HQ. injection HQ as <-. simpl in Hr.
      apply list_elem_of_singleton in Hr as ->. auto. }
    destruct (decide (q = S L)) as [-> | Hq1].
    { rewrite G1 in HQ. injection HQ as <-. simpl in Hr.
      apply list_elem_of_singleton in Hr as ->. auto. }
    apply Gold in HQ; [| done | done].
    destruct (decide (q < L)%nat) as [Hlt | Hge].
    + specialize (Hrs q Q r (Hold q Q HQ Hlt) Hr).
      exfalso. repeat (apply elem_of_cons in Hw as [Hw | Hw]); try lia.
      by apply elem_of_nil in Hw.
    + rewrite (Hnew q Q HQ) in Hr by lia. by apply elem_of_nil in Hr.
Qed.

Section Race.
Context `{Codec} `{Jwt} `{ProcessEnv}.

Lemma add_racer_state (r q p : nat) (ps : list Promise) :
  state_of (add_racer r q ps) p = state_of ps p.
Proof.
  unfold add_racer, state_of. destruct (ps !! q) as [Q |] eqn:HQ; [| reflexivity].
  destruct (decide (q = p)) as [<- | Hne].
  - rewrite list_lookup_insert_eq by (by eapply lookup_lt_Some). by rewrite HQ.
  - by rewrite list_lookup_insert_ne.
Qed.

(** First writer wins: no change of the tables alters a settled promise. *)
Lemma settled_changes c m ps ts m' ps' ts' (p : nat) (s : PState) :
  changes c m ps ts m' ps' ts' ->
  state_of ps p = Some s -> s <> Pending -> state_of ps' p = Some s.
Proof.
  intros Hc Hs Hne. destruct Hc as
    [m ps ts | m ps ts | k cb m ps ts Hcb | m ps ts | k t m ps ts Hk Ht | t m ps ts Ht
     | k cb o m ps ts Ho | j t m ps ts Hj].
  - exact Hs.
  - by apply state_of_app.
  - by apply state_of_app.
  - apply settle_settled; [by apply state_of_app | exact Hne].
  - rewrite !add_racer_state. by do 3 apply state_of_app.
  - rewrite !add_racer_state. by do 3 apply state_of_app.
  - by apply settle_settled.
  - by apply settle_settled.
Qed.

Lemma settled_step (ev : Event) (st : State) (p : nat) (s : PState) :
  state_of (promises st) p = Some s -> s <> Pending ->
  state_of (promises (step ev st)) p = Some s.
Proof.
  intros Hs Hne. destruct (step_changes ev st) as (c & t & _ & Hc & _).
  by eapply settled_changes.
Qed.

Lemma settled_run (evs : list Event) (st : State) (p : nat) (s : PState) :
  state_of (promises st) p = Some s -> s <> Pending ->
  state_of (promises (run evs st)) p = Some s.
Proof.
  revert st. induction evs as [| ev evs IH]; intros st Hs Hne; [exact Hs |].
  simpl. apply IH; [by apply settled_step | exact Hne].
Qed.

(** A race keeps following the promises it follows. *)
Lemma racers_kept_changes c m ps ts m' ps' ts' (q r : nat) (Q : Promise) :
  changes c m ps ts m' ps' ts' ->
  ps !! q = Some Q -> r ∈ racers Q ->
  exists Q', ps' !! q = Some Q' /\ r ∈ racers Q'.
Proof.
  assert (Hadd : forall x y l, (exists Q0, l !! q = Some Q0 /\ r ∈ racers Q0) ->
                 exists Q', add_racer x y l !! q = Some Q' /\ r ∈ racers Q').
  { intros x y l (Q0 & HQ0 & Hin). unfold add_racer.
    destruct (l !! y) as [Y |] eqn:HY; [| eauto].
    destruct (decide (y = q)) as [-> | Hne].
    - rewrite list_lookup_insert_eq by (by eapply lookup_lt_Some).
      eexists. split; [reflexivity |]. simpl. rewrite HQ0 in HY. injection HY as <-.
      by apply list_elem_of_further.
    - rewrite list_lookup_insert_ne by done. eauto. }
  assert (Hset : forall x o l, (exists Q0, l !! q = Some Q0 /\ r ∈ racers Q0) ->
                 exists Q', settle x o l !! q = Some Q' /\ r ∈ racers Q').
  { intros x o l (Q0 & HQ0 & Hin). pose proof (settle_racers_of o x q l) as E.
    rewrite HQ0 in E. destruct (settle x o l !! q) as [Q' |]; [| discriminate].
    injection E as E. exists Q'. split; [reflexivity |]. by rewrite E. }
  intros Hc HQ Hin. destruct Hc; eauto;
    repeat first [apply Hadd | apply Hset];
    exists Q; (split; [| exact Hin]); by repeat apply lookup_app_l_Some.
Qed.

Lemma racers_kept_run (evs : list Event) (st : State) (q r : nat) (Q : Promise) :
  promises st !! q = Some Q -> r ∈ racers Q ->
  exists Q', promises (run evs st) !! q = Some Q' /\ r ∈ racers Q'.
Proof.
  revert st Q. induction evs as [| ev evs IH]; intros st Q HQ Hin; [eauto |].
  simpl. destruct (step_changes ev st) as (c & t & _ & Hc & _).
  destruct (racers_kept_changes _ _ _ _ _ _ _ q r Q Hc HQ Hin) as (Q1 & HQ1 & Hin1).
  by apply (IH _ Q1).
Qed.

Lemma bounded_step (ev : Event) (st : State) :
  bounded (responseCallbacksMap st) (promises st) (timers st) ->
  bounded_runs (promises st) (suspended st) ->
  bounded (responseCallbacksMap (step ev st)) (promises (step ev st)) (timers (step ev st)) /\
  bounded_runs (promises (step ev st)) (suspended (step ev st)).
Proof.
  intros Hb Hr. destruct (step_changes ev st) as (c & t & Hcause & Hc & Ht).
  split; [by eapply bounded_changes |].
  eapply bounded_runs_turns; [exact Ht | by eapply changes_length | | exact Hr].
  intros r ->. simpl in Hcause. destruct Hcause as (_ & Hfn & _).
  by apply (proj1 Hb (run_id r)).
Qed.

(** Every state that the event loop reaches from a new instance is
    bounded. *)
Lemma bounded_run (evs : list Event) (st : State) :
  bounded (responseCallbacksMap st) (promises st) (timers st) ->
  bounded_runs (promises st) (suspended st) ->
  bounded (responseCallbacksMap (run evs st)) (promises (run evs st)) (timers (run evs st)) /\
  bounded_runs (promises (run evs st)) (suspended (run evs st)).
Proof.
  revert st. induction evs as [| ev evs IH]; intros st Hb Hr; [by split |].
  simpl. destruct (bounded_step ev st Hb Hr) as [Hb' Hr']. by apply IH.
Qed.

Lemma bounded_new (queue reply : string) :
  bounded (responseCallbacksMap (new queue reply)) (promises (new queue reply))
    (timers (new queue reply)) /\
  bounded_runs (promises (new queue reply)) (suspended (new queue reply)).
Proof.
  split; [repeat split; simpl |].
  - intros k cb Hk. by rewrite lookup_empty in Hk.
  - intros q Q r HQ. by rewrite lookup_nil in HQ.
  - intros j t Hj. by rewrite lookup_nil in Hj.
  - intros j r Hj. simpl in Hj. by rewrite lookup_nil in Hj.
Qed.

(** An entry of the table of callbacks is written by the events that
    touch it, and by no other. *)
Lemma entry_step (k : string) (ev : Event) (st : State) :
  touches k ev st = false ->
  responseCallbacksMap (step ev st) !! k = responseCallbacksMap st !! k.
Proof.
  intros Hno. destruct (step_changes ev st) as (c & t & Hcause & Hc & Ht).
  assert (Hkeep : forall k', k' <> k ->
            delete k' (responseCallbacksMap st) !! k = responseCallbacksMap st !! k)
    by (intros k' Hne; by apply lookup_delete_ne).
  assert (Hput : forall k' cb, k' <> k ->
            <[k' := cb]> (responseCallbacksMap st) !! k = responseCallbacksMap st !! k)
    by (intros k' cb Hne; by apply lookup_insert_ne).
  inversion Hc as
    [m ps ts | m ps ts | k' cb m ps ts Hcb | m ps ts | k' t' m ps ts Hk Htp | t' m ps ts Htp
     | k' cb o m ps ts Ho | j t' m ps ts Hj]; subst c; try reflexivity.
  - apply Hput. intros ->. destruct t; simpl in Hcause;
      try absurd_cause Hcause.
    destruct Hcause as [(subject & data & ext & uuid & -> & E) | (subject & data & ->)];
      simpl in Hno; [rewrite <- E in Hno |]; by rewrite String.eqb_refl in Hno.
  - apply Hput. intros ->. destruct t; simpl in Hcause;
      try absurd_cause Hcause.
    destruct Hcause as (data & ->). simpl in Hno. by rewrite String.eqb_refl in Hno.
  - apply Hkeep. intros ->. destruct t; simpl in Hcause;
      try absurd_cause Hcause.
    destruct Hcause as (-> & r & Hj & [[=] | (o' & [= E1 E2 E3])]).
    simpl in Hno. rewrite Hj, <- E1 in Hno. by rewrite String.eqb_refl in Hno.
  - apply Hkeep. intros E. destruct t; simpl in Hcause;
      try absurd_cause Hcause.
    subst ev. simpl in Hno. rewrite Hj, E in Hno. by rewrite String.eqb_refl in Hno.
Qed.

Lemma entry_run (k : string) (evs : list Event) (st : State) :
  quiet k evs st = true ->
  responseCallbacksMap (run evs st) !! k = responseCallbacksMap st !! k.
Proof.
  revert st. induction evs as [| ev evs IH]; intros st Hq; [reflexivity |].
  simpl in Hq. apply andb_true_iff in Hq as [Hev Hq]. apply negb_true_iff in Hev.
  simpl. rewrite (IH _ Hq). by apply entry_step.
Qed.

(** While a timed request is awaited, no event that leaves the entry of
    its id alone ends the wait. *)
Lemma awaiting_step id subject timeout n p1 p2 p3 (ev : Event) (st : State) :
  touches id ev st = false ->
  awaiting id subject timeout n p1 p2 p3
    (responseCallbacksMap st) (promises st) (timers st) ->
  apart id [p1; p2; p3] (suspended st) ->
  awaiting id subject timeout n p1 p2 p3
    (responseCallbacksMap (step ev st)) (promises (step ev st)) (timers (step ev st)) /\
  apart id [p1; p2; p3] (suspended (step ev st)).
Proof.
  intros Hno Haw Hap. destruct (step_changes ev st) as (c & t & Hcause & Hc & Ht).
  split.
  - eapply awaiting_changes; [exact Hc | | | exact Haw].
    + intros k cb o -> Hin. destruct t; simpl in Hcause;
        try absurd_cause Hcause.
      destruct Hcause as (-> & r & Hj & [[=] | (o' & [= -> -> ->])]).
      simpl in Hno. rewrite Hj in Hno.
      rewrite (Hap j r Hj Hin), String.eqb_refl in Hno. discriminate.
    + intros j t' -> ->. destruct t; simpl in Hcause;
        try absurd_cause Hcause.
      subst ev. simpl in Hno.
      rewrite (aw_timer _ _ _ _ _ _ _ _ _ _ Haw) in Hno. simpl in Hno.
      by rewrite String.eqb_refl in Hno.
  - destruct Ht as [rs | r rs | j r r' rs Hj Hid Hfn | j r rs Hj].
    + exact Hap.
    + intros j r' Hj Hin. apply lookup_app_Some in Hj as [Hj | [_ Hj]]; [by eapply Hap |].
      apply list_lookup_singleton_Some in Hj as [_ [= <-]].
      simpl in Hcause. destruct Hcause as (_ & Hfn & _).
      by destruct (aw_callbacks _ _ _ _ _ _ _ _ _ _ Haw _ _ Hfn Hin).
    + intros j' r0 Hj' Hin. destruct (decide (j = j')) as [<- | Hne].
      * rewrite list_lookup_insert_eq in Hj' by (by eapply lookup_lt_Some).
        injection Hj' as <-. rewrite Hid. apply (Hap j r Hj). by rewrite <- Hfn.
      * rewrite list_lookup_insert_ne in Hj' by done. by eapply Hap.
    + intros j' r0 Hj' Hin. destruct (decide (j = j')) as [<- | Hne].
      * rewrite list_lookup_insert_eq in Hj' by (by eapply lookup_lt_Some). discriminate.
      * rewrite list_lookup_insert_ne in Hj' by done. by eapply Hap.
Qed.

Lemma awaiting_run id subject timeout n p1 p2 p3 (evs : list Event) (st : State) :
  quiet id evs st = true ->
  awaiting id subject timeout n p1 p2 p3
    (responseCallbacksMap st) (promises st) (timers st) ->
  apart id [p1; p2; p3] (suspended st) ->
  awaiting id subject timeout n p1 p2 p3
    (responseCallbacksMap (run evs st)) (promises (run evs st)) (timers (run evs st)).
Proof.
  revert st. induction evs as [| ev evs IH]; intros st Hq Haw Hap; [exact Haw |].
  simpl in Hq. apply andb_true_iff in Hq as [Hev Hq]. apply negb_true_iff in Hev.
  destruct (awaiting_step _ _ _ _ _ _ _ ev st Hev Haw Hap) as [Haw' Hap'].
  simpl. by apply IH.
Qed.

End Race.

(** ** Consistency of the tables *)

Lemma settle_lookup_racers (o : PState) (q x : nat) (ps : list Promise) (Q : Promise) :
  settle q o ps !! x = Some Q ->
  exists Q0, ps !! x = Some Q0 /\ racers Q0 = racers Q.
Proof.
  intros HQ. pose proof (settle_racers_of o q x ps) as E.
  rewrite HQ in E. destruct (ps !! x) as [Q0 |]; [| discriminate].
  injection E as E. eauto.
Qed.

Lemma add_racer_racers (r q x r' : nat) (ps : list Promise) (Q : Promise) :
  add_racer r q ps !! x = Some Q -> r' ∈ racers Q ->
  r' = r \/ exists Q0, ps !! x = Some Q0 /\ r' ∈ racers Q0.
Proof.
  unfold add_racer. destruct (ps !! q) as [Q0 |] eqn:HQ0; [| eauto].
  intros HQ Hr. destruct (decide (q = x)) as [<- | Hne].
  - rewrite list_lookup_insert_eq in HQ by (by eapply lookup_lt_Some).
    injection HQ as <-. simpl in Hr. apply elem_of_cons in Hr as [-> | Hr]; eauto.
  - rewrite list_lookup_insert_ne in HQ by done. eauto.
Qed.

Lemma app_pending_racers (ps : list Promise) (x r : nat) (Q : Promise) :
  (ps ++ [pending_promise])%list !! x = Some Q -> r ∈ racers Q -> ps !! x = Some Q.
Proof.
  intros HQ Hr. apply lookup_app_Some in HQ as [HQ | [_ HQ]]; [exact HQ |].
  apply list_lookup_singleton_Some in HQ as [_ <-]. by apply elem_of_nil in Hr.
Qed.

Lemma lookup_insert_cases (m : gmap string Callback) (k k' : string) (cb cb' : Callback) :
  <[k := cb]> m !! k' = Some cb' -> (k' = k /\ cb' = cb) \/ (k' <> k /\ m !! k' = Some cb').
Proof.
  destruct (decide (k = k')) as [<- | Hne].
  - rewrite lookup_insert_eq. intros [= <-]. auto.
  - rewrite lookup_insert_ne by done. auto.
Qed.

Section Consistent.

Lemma consistent_registered k cb m ps ts :
  callback_promise cb = length ps ->
  consistent m ps ts ->
  consistent (<[k := cb]> m) (ps ++ [pending_promise])%list ts.
Proof.
  intros Hcb [Hb Hw Hd Hr Ht]. pose proof Hb as (Bcb & Brs & Bts).
  split.
  - eapply bounded_changes; [by apply ch_registered | exact Hb].
  - intros k' cb' Hk'. apply lookup_insert_cases in Hk' as [[-> ->] | [_ Hk']].
    + rewrite Hcb. apply state_of_fresh.
    + by apply state_of_app, (Hw k').
  - intros k1 k2 cb1 cb2 H1 H2 E.
    apply lookup_insert_cases in H1 as [[-> ->] | [_ H1]];
      apply lookup_insert_cases in H2 as [[-> ->] | [_ H2]].
    + reflexivity.
    + specialize (Bcb k2 cb2 H2). lia.
    + specialize (Bcb k1 cb1 H1). lia.
    + by eapply Hd.
  - intros q Q r k' cb' HQ Hin Hk'. apply app_pending_racers with (r := r) in HQ; [| done].
    apply lookup_insert_cases in Hk' as [[-> ->] | [_ Hk']].
    + specialize (Brs q Q r HQ Hin). lia.
    + by eapply Hr.
  - intros j t k' cb' Hj Hk'. apply lookup_insert_cases in Hk' as [[-> ->] | [_ Hk']].
    + specialize (Bts j t Hj). lia.
    + by eapply Ht.
Qed.

Lemma consistent_detached m ps ts :
  consistent m ps ts ->
  consistent m (settle (length ps) (Fulfilled VNull) (ps ++ [pending_promise])%list) ts.
Proof.
  intros [Hb Hw Hd Hr Ht]. pose proof Hb as (Bcb & Brs & Bts).
  split.
  - eapply bounded_changes; [by apply ch_detached | exact Hb].
  - intros k cb Hk. unfold state_of. rewrite settle_other.
    + by apply state_of_app, (Hw k).
    + specialize (Bcb k cb Hk). lia.
    + intros P HP. rewrite list_lookup_middle in HP by reflexivity.
      injection HP as <-. apply not_elem_of_nil.
  - exact Hd.
  - intros q Q r k cb HQ Hin Hk.
    apply settle_lookup_racers in HQ as (Q0 & HQ0 & E). rewrite <- E in Hin.
    apply app_pending_racers with (r := r) in HQ0; [| done]. by eapply Hr.
  - exact Ht.
Qed.

Lemma consistent_settled q o m ps ts k :
  (forall k' cb', m !! k' = Some cb' -> k' <> k -> callback_promise cb' <> q) ->
  (forall k' cb' Q, m !! k' = Some cb' -> ps !! q = Some Q -> callback_promise cb' ∉ racers Q) ->
  consistent m ps ts ->
  consistent (delete k m) (settle q o ps) ts.
Proof.
  intros Hother Hnot [Hb Hw Hd Hr Ht].
  split.
  - by apply bounded_delete, bounded_settle.
  - intros k' cb' Hk'. apply lookup_delete_Some in Hk' as [Hne Hk'].
    unfold state_of. rewrite settle_other; [by apply (Hw k') | by apply (Hother k') |].
    intros Q HQ. by apply (Hnot k').
  - intros k1 k2 cb1 cb2 H1 H2.
    apply lookup_delete_Some in H1 as [_ H1]. apply lookup_delete_Some in H2 as [_ H2].
    by eapply Hd.
  - intros x Q r k' cb' HQ Hin Hk'. apply lookup_delete_Some in Hk' as [_ Hk'].
    apply settle_lookup_racers in HQ as (Q0 & HQ0 & E). rewrite <- E in Hin. by eapply Hr.
  - intros j t k' cb' Hj Hk'. apply lookup_delete_Some in Hk' as [_ Hk']. by eapply Ht.
Qed.

Lemma consistent_clear_timer m ps ts j :
  consistent m ps ts -> consistent m ps (<[j := None]> ts).
Proof.
  intros [Hb Hw Hd Hr Ht]. split; try assumption.
  - by apply bounded_clear_timer.
  - intros j' t k cb Hj' Hk. destruct (decide (j = j')) as [<- | Hjj].
    + apply list_lookup_insert_Some in Hj' as [[_ [[=] _]] | [? _]]. contradiction.
    + rewrite list_lookup_insert_ne in Hj' by done. by eapply Ht.
Qed.

Lemma consistent_timed k t m ps ts :
  t_messageId t = k ->
  t_promise t = S (length ps) ->
  consistent m ps ts ->
  consistent (<[k := SendCallback (length ps)]> m)
    (add_racer (S (S (length ps))) (S (length ps))
       (add_racer (S (S (length ps))) (length ps)
          (((ps ++ [pending_promise]) ++ [pending_promise]) ++ [pending_promise])%list))
    (ts ++ [Some t])%list.
Proof.
  intros Hk Htp Hc. pose proof Hc as [Hb Hw Hd Hr Ht]. pose proof Hb as (Bcb & Brs & Bts).
  assert (Hracers : forall x Q r,
            add_racer (S (S (length ps))) (S (length ps))
              (add_racer (S (S (length ps))) (length ps)
                 (((ps ++ [pending_promise]) ++ [pending_promise]) ++ [pending_promise])%list)
              !! x = Some Q ->
            r ∈ racers Q ->
            r = S (S (length ps)) \/ (r < length ps)%nat).
  { intros x Q r HQ Hin.
    apply add_racer_racers with (r' := r) in HQ as [-> | (Q1 & HQ1 & Hin1)]; [auto | | done].
    apply add_racer_racers with (r' := r) in HQ1 as [-> | (Q2 & HQ2 & Hin2)]; [auto | | done].
    do 3 (apply app_pending_racers with (r := r) in HQ2; [| done]).
    right. by eapply Brs. }
  split.
  - eapply bounded_changes; [by apply (ch_timed k t) | exact Hb].
  - intros k' cb' Hk'. rewrite !add_racer_state.
    apply lookup_insert_cases in Hk' as [[-> ->] | [_ Hk']].
    + simpl. do 2 apply state_of_app. apply state_of_fresh.
    + do 3 apply state_of_app. by apply (Hw k').
  - intros k1 k2 cb1 cb2 H1 H2 E.
    apply lookup_insert_cases in H1 as [[-> ->] | [_ H1]];
      apply lookup_insert_cases in H2 as [[-> ->] | [_ H2]].
    + reflexivity.
    + specialize (Bcb k2 cb2 H2). simpl in E. lia.
    + specialize (Bcb k1 cb1 H1). simpl in E. lia.
    + by eapply Hd.
  - intros x Q r k' cb' HQ Hin Hk'.
    apply lookup_insert_cases in Hk' as [[-> ->] | [_ Hk']].
    + simpl. destruct (Hracers x Q r HQ Hin) as [-> | Hlt]; lia.
    + apply add_racer_racers with (r' := r) in HQ as [-> | (Q1 & HQ1 & Hin1)]; [| | done].
      { specialize (Bcb k' cb' Hk'). lia. }
      apply add_racer_racers with (r' := r) in HQ1 as [-> | (Q2 & HQ2 & Hin2)]; [| | done].
      { specialize (Bcb k' cb' Hk'). lia. }
      do 3 (apply app_pending_racers with (r := r) in HQ2; [| done]).
      by eapply Hr.
  - intros j t' k' cb' Hj Hk'.
    apply lookup_app_Some in Hj as [Hj | [_ Hj]].
    + apply lookup_insert_cases in Hk' as [[-> ->] | [_ Hk']].
      * specialize (Bts j t' Hj). simpl. lia.
      * by eapply Ht.
    + apply list_lookup_singleton_Some in Hj as [_ [= <-]]. rewrite Htp.
      apply lookup_insert_cases in Hk' as [[-> ->] | [_ Hk']].
      * simpl. lia.
      * specialize (Bcb k' cb' Hk'). lia.
Qed.

Lemma consistent_new_promise m ps ts :
  consistent m ps ts -> consistent m (ps ++ [pending_promise])%list ts.
Proof.
  intros [Hb Hw Hd Hr Ht]. split.
  - by apply bounded_new_promise.
  - intros k cb Hk. by apply state_of_app, (Hw k).
  - exact Hd.
  - intros q Q r k cb HQ Hin Hk. apply app_pending_racers with (r := r) in HQ; [| done].
    by eapply Hr.
  - exact Ht.
Qed.

Lemma consistent_add_racer r q m ps ts :
  (r < length ps)%nat ->
  (forall k cb, m !! k = Some cb -> callback_promise cb <> r) ->
  consistent m ps ts -> consistent m (add_racer r q ps) ts.
Proof.
  intros Hlt Hfresh [Hb Hw Hd Hr Ht]. split.
  - by apply bounded_add_racer.
  - intros k cb Hk. rewrite add_racer_state. by apply (Hw k).
  - exact Hd.
  - intros x Q r' k cb HQ Hin Hk.
    apply add_racer_racers with (r' := r') in HQ as [-> | (Q0 & HQ0 & Hin0)]; [| | done].
    + by apply (Hfresh k).
    + by eapply Hr.
  - exact Ht.
Qed.

Lemma consistent_new_timer t m ps ts :
  (t_promise t < length ps)%nat ->
  (forall k cb, m !! k = Some cb -> callback_promise cb <> t_promise t) ->
  consistent m ps ts -> consistent m ps (ts ++ [Some t])%list.
Proof.
  intros Hlt Hfresh [Hb Hw Hd Hr Ht]. split; try assumption.
  - by apply bounded_new_timer.
  - intros j t' k cb Hj Hk. apply lookup_app_Some in Hj as [Hj | [_ Hj]]; [by eapply Ht |].
    apply list_lookup_singleton_Some in Hj as [_ [= <-]]. by apply (Hfresh k).
Qed.

Lemma consistent_changes c m ps ts m' ps' ts' :
  changes c m ps ts m' ps' ts' ->
  (forall k cb o, c = Settled k cb o ->
     forall k' cb', m !! k' = Some cb' ->
                    callback_promise cb' = callback_promise cb -> k' = k) ->
  consistent m ps ts -> consistent m' ps' ts'.
Proof.
  intros Hc Hmatch Hco. destruct Hc as
    [m ps ts | m ps ts | k cb m ps ts Hcb | m ps ts | k t m ps ts Hk Ht | t m ps ts Ht
     | k cb o m ps ts Ho | j t m ps ts Hj].
  - exact Hco.
  - by apply consistent_new_promise.
  - by apply consistent_registered.
  - by apply consistent_detached.
  - by apply consistent_timed.
  - pose proof (proj1 (co_bounded _ _ _ Hco)) as Bcb.
    apply consistent_new_timer;
      [rewrite ?add_racer_length, !length_app; simpl; lia
      | intros k cb Hk; specialize (Bcb k cb Hk); lia |].
    apply consistent_add_racer;
      [rewrite ?add_racer_length, !length_app; simpl; lia
      | intros k cb Hk; specialize (Bcb k cb Hk); lia |].
    apply consistent_add_racer;
      [rewrite !length_app; simpl; lia
      | intros k cb Hk; specialize (Bcb k cb Hk); lia |].
    by do 3 apply consistent_new_promise.
  - apply consistent_settled; [| | exact Hco].
    + intros k' cb' Hk' Hne E. apply Hne. by apply (Hmatch k cb o eq_refl k' cb').
    + intros k' cb' Q Hk' HQ Hin.
      exact (co_racers _ _ _ Hco (callback_promise cb) Q (callback_promise cb') k' cb'
               HQ Hin Hk' eq_refl).
  - apply consistent_settled; [| | by apply consistent_clear_timer].
    + intros k' cb' Hk' _. by apply (co_timers _ _ _ Hco j t k' cb').
    + intros k' cb' Q Hk' HQ Hin.
      exact (co_racers _ _ _ Hco (t_promise t) Q (callback_promise cb') k' cb'
               HQ Hin Hk' eq_refl).
Qed.

(** No change of the table stores the callback of a suspended run under
    another id than the run's. *)
Lemma runs_match_changes c m ps ts m' ps' ts' rs :
  changes c m ps ts m' ps' ts' ->
  bounded_runs ps rs -> runs_match m rs -> runs_match m' rs.
Proof.
  intros Hc Hb Hm. destruct Hc as
    [m ps ts | m ps ts | k cb m ps ts Hcb | m ps ts | k t m ps ts Hk Ht | t m ps ts Ht
     | k cb o m ps ts Ho | j t m ps ts Hj]; try exact Hm.
  - intros j r k' cb' Hj Hk' E. apply lookup_insert_cases in Hk' as [[-> ->] | [_ Hk']].
    + specialize (Hb j r Hj). lia.
    + by eapply Hm.
  - intros j r k' cb' Hj Hk' E. apply lookup_insert_cases in Hk' as [[-> ->] | [_ Hk']].
    + specialize (Hb j r Hj). simpl in E. lia.
    + by eapply Hm.
  - intros j r k' cb' Hj Hk' E. apply lookup_delete_Some in Hk' as [_ Hk']. by eapply Hm.
  - intros j' r k' cb' Hj' Hk' E. apply lookup_delete_Some in Hk' as [_ Hk']. by eapply Hm.
Qed.

Lemma runs_match_turns t m rs rs' :
  turns t rs rs' ->
  (forall r, t = Spawned r ->
     forall k cb, m !! k = Some cb ->
                  callback_promise cb = callback_promise (run_fn r) -> k = run_id r) ->
  runs_match m rs -> runs_match m rs'.
Proof.
  intros Ht Hspawn Hm. destruct Ht as [rs | r rs | j r r' rs Hj Hid Hfn | j r rs Hj].
  - exact Hm.
  - intros j r' k cb Hj Hk E. apply lookup_app_Some in Hj as [Hj | [_ Hj]]; [by eapply Hm |].
    apply list_lookup_singleton_Some in Hj as [_ [= <-]]. by eapply Hspawn.
  - intros j' r0 k cb Hj' Hk E. destruct (decide (j = j')) as [<- | Hne].
    + rewrite list_lookup_insert_eq in Hj' by (by eapply lookup_lt_Some).
      injection Hj' as <-. rewrite Hid. apply (Hm j r k cb Hj Hk). by rewrite <- Hfn.
    + rewrite list_lookup_insert_ne in Hj' by done. by eapply Hm.
  - intros j' r0 k cb Hj' Hk E. destruct (decide (j = j')) as [<- | Hne].
    + rewrite list_lookup_insert_eq in Hj' by (by eapply lookup_lt_Some). discriminate.
    + rewrite list_lookup_insert_ne in Hj' by done. by eapply Hm.
Qed.

End Consistent.

Section Reachable.
Context `{Codec} `{Jwt} `{ProcessEnv}.

Lemma sound_new (queue reply : string) : sound (new queue reply).
Proof.
  destruct (bounded_new queue reply) as [Hb Hr].
  split; [| exact Hr |].
  - split; [exact Hb | simpl ..].
    + intros k cb Hk. by rewrite lookup_empty in Hk.
    + intros k1 k2 cb1 cb2 Hk. by rewrite lookup_empty in Hk.
    + intros q Q r k cb HQ. by rewrite lookup_nil in HQ.
    + intros j t k cb Hj. by rewrite lookup_nil in Hj.
  - intros j r k cb Hj. simpl in Hj. by rewrite lookup_nil in Hj.
Qed.

Lemma sound_step (ev : Event) (st : State) : sound st -> sound (step ev st).
Proof.
  intros [Hco Hb Hm]. destruct (step_changes ev st) as (c & t & Hcause & Hc & Ht).
  assert (Hfn : forall r, t = Spawned r ->
            c = Unchanged /\ responseCallbacksMap st !! run_id r = Some (run_fn r)).
  { intros r ->. simpl in Hcause. by destruct Hcause as (-> & Hfn & _). }
  split.
  - eapply consistent_changes; [exact Hc | | exact Hco].
    intros k cb o -> k' cb' Hk' E. destruct t; simpl in Hcause;
      try absurd_cause Hcause.
    destruct Hcause as (_ & r & Hj & [E0 | (o' & [= -> -> ->])]); [discriminate E0 |].
    by apply (Hm j r k' cb').
  - eapply bounded_runs_turns; [exact Ht | by eapply changes_length | | exact Hb].
    intros r Hr. destruct (Hfn r Hr) as [_ Hk].
    by apply (proj1 (co_bounded _ _ _ Hco) (run_id r)).
  - eapply runs_match_turns; [exact Ht | | by eapply runs_match_changes].
    intros r Hr k cb Hk E. destruct (Hfn r Hr) as [-> Hk0].
    apply changes_unchanged in Hc as (Em & _ & _). rewrite Em in Hk.
    by apply (co_distinct _ _ _ Hco k (run_id r) cb (run_fn r)).
Qed.

(** Every state that the event loop reaches from a new instance is
    sound. *)
Lemma sound_run (evs : list Event) (st : State) : sound st -> sound (run evs st).
Proof.
  revert st. induction evs as [| ev evs IH]; intros st Hs; [exact Hs |].
  simpl. by apply IH, sound_step.
Qed.

(** In particular its tables are consistent: each stored callback
    belongs to a promise that is pending, so that a caller is waiting on
    it. *)
Lemma consistent_run (evs : list Event) (st : State) :
  sound st ->
  consistent (responseCallbacksMap (run evs st)) (promises (run evs st))
    (timers (run evs st)).
Proof. intros Hs. by apply so_tables, sound_run. Qed.

End Reachable.

(** ** Settlement of a pending request *)

Section Settlement.
Context `{Codec} `{Jwt} `{ProcessEnv}.

Lemma reply_outcome_settled (cb : Callback) (message : JsVal) (v : Completion JsVal) :
  reply_outcome cb message v <> Pending.
Proof.
  unfold reply_outcome. destruct (truthy message); [destruct v |]; apply outcome_settled.
Qed.

(** The callback of the listener, run without interruption on a reply
    that decodes, settles the promise of the stored callback with the
    outcome of the reply, calls the callback once and removes the
    entry. *)
Lemma init_callback_outcome (st : State) (msg : Msg) (h : Headers)
  (cb : Callback) (message : JsVal) :
  msg_headers msg = Some h ->
  responseCallbacksMap st !! hdr_get h "messageId" = Some cb ->
  decode (msg_data msg) = Return message ->
  exists st1 new,
    init_callback None msg st = (Return tt, st1) /\
    trace st1 = (trace st ++ new)%list /\
    length (List.filter is_callback new) = 1%nat /\
    responseCallbacksMap st1 = delete (hdr_get h "messageId") (responseCallbacksMap st) /\
    promises st1
    = settle (callback_promise cb)
        (reply_outcome cb message
           (JwtValidator.verify (hdr_get h "serviceToken") (secretManager st)))
        (promises st) /\
    timers st1 = timers st /\
    suspended st1 = suspended st.
Proof.
  intros Hh Hcb Hdec. unfold reply_outcome. destruct (truthy message) eqn:Ht.
  - destruct (JwtValidator.verify (hdr_get h "serviceToken") (secretManager st))
      as [signer | e] eqn:Hv.
    + destruct (init_callback_verified st msg h cb message signer Hh Hcb Hdec Ht Hv)
        as (st1 & Hrun & Htr & Hmap & Hps).
      exists st1. eexists. rewrite <- apply_callback_outcome.
      repeat split; try eassumption; try reflexivity.
      all: revert Hrun; exec; rewrite Hh; cbv beta iota; rewrite Hcb, Hdec, Ht; simpl;
        rewrite Hv; simpl; destruct message; try discriminate; by intros [= <-].
    + destruct (init_callback_rejected st msg h cb message e Hh Hcb Hdec Ht Hv)
        as (st1 & Hrun & Htr & Hmap & Hps).
      exists st1. eexists. rewrite <- apply_callback_outcome.
      repeat split; try eassumption; try reflexivity.
      all: revert Hrun; exec; rewrite Hh; cbv beta iota; rewrite Hcb, Hdec, Ht; simpl;
        rewrite Hv; simpl; by intros [= <-].
  - destruct (init_callback_falsy st msg h cb message Hh Hcb Hdec Ht)
      as (st1 & Hrun & Htr & Hmap & Hps).
    exists st1. eexists. rewrite <- apply_callback_outcome.
    repeat split; try eassumption; try reflexivity.
    all: revert Hrun; exec; rewrite Hh; cbv beta iota; rewrite Hcb, Hdec, Ht; simpl;
      by intros [= <-].
Qed.

(** The same in the event loop: the delivery and the two resumptions of
    its run, with nothing in between. *)
Lemma reply_settles (st : State) (msg : Msg) (h : Headers) (cb : Callback) (message : JsVal) :
  msg_headers msg = Some h ->
  responseCallbacksMap st !! hdr_get h "messageId" = Some cb ->
  decode (msg_data msg) = Return message ->
  let st1 := run [Reply None msg; Resume (length (suspended st));
                  Resume (length (suspended st))] st in
  (exists new, trace st1 = (trace st ++ new)%list /\
               length (List.filter is_callback new) = 1%nat) /\
  responseCallbacksMap st1 = delete (hdr_get h "messageId") (responseCallbacksMap st) /\
  promises st1
  = settle (callback_promise cb)
      (reply_outcome cb message
         (JwtValidator.verify (hdr_get h "serviceToken") (secretManager st)))
      (promises st) /\
  timers st1 = timers st /\
  suspended st1 = (suspended st ++ [None])%list.
Proof.
  intros Hh Hcb Hdec st1. subst st1. rewrite (uninterrupted_reply msg h cb st Hh Hcb).
  destruct (init_callback_outcome st msg h cb message Hh Hcb Hdec)
    as (st1 & new & Hrun & Htr & Hone & Hmap & Hps & Hts & Hss).
  unfold run_executor, try_catch. rewrite Hrun. simpl.
  repeat split; try assumption. eauto.
Qed.



(** The sends fail where [publish] fails, with the same error or, on a
    token that the headers refuse, with the error of the headers. *)
Lemma attempt_send_failure (st : State) (data : JsVal) (e : Exn) :
  attempt st data = inl e ->
  exists e', (e' = e \/ e' = BadHeader) /\
             forall head, attempt_send st data head = inl e'.
Proof.
  unfold attempt, attempt_send.
  destruct (JwtValidator.sign (secretManager st) (privateKey st)) as [[token | e0] pk];
    simpl; [| intros [= <-]; eauto].
  intros Hfail. destruct (has_line_break token) eqn:Hl.
  { exists BadHeader. split; [by right |]. intros head.
    by rewrite hdr_append_cases, Hl. }
  exists e. split; [by left |]. intros head. rewrite hdr_append_cases, Hl.
  destruct (connection st) as [cn |]; [| congruence].
  destruct (encode data) as [payload | e1]; [| congruence].
  destruct (publish_failure cn); [congruence | discriminate].
Qed.

(** The promises of a timed request: the race follows the promise of
    [sendMessage], and all are pending. *)
Lemma timed_follows (subject : string) (timeout : Z) (data : JsVal) (uuid : string)
  (st : State) :
  let p1 := length (promises st) in
  let sent := snd (sendMessageWithTimeout subject timeout data uuid st) in
  promises sent !! p1 = Some {| pstate := Pending; racers := [S (S p1)] |} /\
  state_of (promises sent) (S (S p1)) = Some Pending.
Proof.
  intros p1 sent. subst sent.
  destruct (sendMessageWithTimeout_spec subject timeout data uuid st)
    as (_ & _ & -> & _). fold p1.
  set (ps3 := (((promises st ++ [pending_promise]) ++ [pending_promise])
               ++ [pending_promise])%list).
  assert (Hfirst : ps3 !! p1 = Some pending_promise).
  { subst ps3. do 2 (apply lookup_app_l_Some). by apply list_lookup_middle. }
  assert (Hthird : state_of ps3 (S (S p1)) = Some Pending).
  { subst ps3. unfold state_of. rewrite list_lookup_middle; [reflexivity |].
    rewrite !length_app. simpl. subst p1. lia. }
  split.
  - unfold add_racer at 1.
    assert (E : add_racer (S (S p1)) p1 ps3 !! p1
                = Some {| pstate := Pending; racers := [S (S p1)] |}).
    { unfold add_racer. rewrite Hfirst. apply list_lookup_insert_eq.
      by eapply lookup_lt_Some. }
    destruct (add_racer (S (S p1)) p1 ps3 !! S p1) as [Q |]; [| exact E].
    rewrite list_lookup_insert_ne by lia. exact E.
  - by rewrite !add_racer_state.
Qed.


(** C7 (as amended): a reply for the pending entry of a waiting caller,
    with a payload that is truthy and a service token that [verify]
    refuses with [e], is not propagated: the listener logs it, calls the
    stored callback with [(null, e.message, 401)], removes the entry and
    returns normally, in the event loop as it does run on its own. A
    caller waiting through [sendMessage] is rejected with a
    [MessageError] of code 401, and so is every race that follows the
    promise of the callback, which is how the promise that
    [sendMessageWithTimeout] returned is rejected; a caller waiting
    through [sendRawMessage] is rejected with the bare message, which
    carries no code. *)
Theorem invalid_reply_rejects_caller (st : State) (msg : Msg) (h : Headers)
  (cb : Callback) (message : JsVal) (e : Exn) :
  msg_headers msg = Some h ->
  responseCallbacksMap st !! hdr_get h "messageId" = Some cb ->
  state_of (promises st) (callback_promise cb) = Some Pending ->
  decode (msg_data msg) = Return message ->
  truthy message = true ->
  JwtValidator.verify (hdr_get h "serviceToken") (secretManager st) = Throw e ->
  let rejection :=
    Rejected match cb with
             | SendCallback _ => MessageError (exn_message e) (VNum 401)
             | RawCallback _ => Raised (exn_message e)
             end in
  (exists st1,
     init_callback None msg st = (Return tt, st1) /\
     run [Reply None msg; Resume (length (suspended st)); Resume (length (suspended st))] st
     = set_suspended (suspended st ++ [None]) st1 /\
     trace st1 = (trace st ++
       [EVerify (hdr_get h "serviceToken");
        EConsoleError [LogVal (VStr "Reply validation failed:"); LogVal (exn_message e)];
        ECallback (hdr_get h "messageId") cb VNull (exn_message e) (VNum 401)])%list /\
     responseCallbacksMap st1 = delete (hdr_get h "messageId") (responseCallbacksMap st) /\
     state_of (promises st1) (callback_promise cb) = Some rejection /\
     (forall (P : Promise) (r : nat),
        promises st !! callback_promise cb = Some P -> r ∈ racers P ->
        state_of (promises st) r = Some Pending ->
        state_of (promises st1) r = Some rejection)) /\
  (forall (s : State) (subject : string) (timeout : Z) (data : JsVal) (uuid : string),
     has_line_break uuid = false ->
     let sent := snd (sendMessageWithTimeout subject timeout data uuid s) in
     fst (sendMessageWithTimeout subject timeout data uuid s)
     = Return (S (S (length (promises s)))) /\
     responseCallbacksMap sent !! uuid = Some (SendCallback (length (promises s))) /\
     state_of (promises sent) (S (S (length (promises s)))) = Some Pending /\
     exists P, promises sent !! length (promises s) = Some P /\
               S (S (length (promises s))) ∈ racers P).
Proof.
  intros Hh Hcb Hwait Hdec Ht Hv rejection. split.
  - destruct (init_callback_rejected st msg h cb message e Hh Hcb Hdec Ht Hv)
      as (st1 & Hrun & Htr & Hmap & Hps).
    destruct (verify_error_message _ _ _ Hv) as (m & -> & Hm).
    assert (Hrej : outcome cb VNull (exn_message (ErrorObj m)) (VNum 401) = rejection).
    { unfold outcome. simpl exn_message. by rewrite (truthy_nonempty _ Hm). }
    exists st1. split; [exact Hrun |].
    split.
    { rewrite (uninterrupted_reply msg h cb st Hh Hcb).
      unfold run_executor, try_catch. by rewrite Hrun. }
    split; [exact Htr |]. split; [exact Hmap |].
    rewrite Hps, apply_callback_outcome, Hrej.
    split; [apply settle_pending; [discriminate | exact Hwait] |].
    intros P r HP Hin Hr.
    eapply (settle_racer rejection); [discriminate | exact HP | | exact Hin | exact Hr].
    unfold state_of in Hwait. rewrite HP in Hwait. simpl in Hwait. congruence.
  - intros s subject timeout data uuid Hid sent. subst sent.
    destruct (sendMessageWithTimeout_spec subject timeout data uuid s)
      as (Hret & Hm & _).
    destruct (timed_follows subject timeout data uuid s) as [HP Hp3].
    split; [exact Hret |]. split; [rewrite Hm, Hid; apply lookup_insert_eq |].
    split; [exact Hp3 |]. eexists. split; [exact HP |]. apply list_elem_of_here.
Qed.

(** C6 (what the code does): when signing, encoding or the transport's
    publish fails with [e], [publish] is rejected with [e] and has
    published and registered nothing. [sendMessage] and [sendRawMessage]
    have no handler for the failure: the error (or, for a token with a
    line break, the error of the headers) is an unhandled rejection of
    the executor; the promise they returned is not rejected (it stays
    pending, or is already resolved with [null] when no reply is
    expected); and the callback registered before the failure stays in
    the table, with its promise pending, through every later event that
    is not a registration under the same id, the resumption of a reply
    under the id or a timer set for it. *)
Theorem send_failure_keeps_entry (subject : string) (data : JsVal)
  (reply ext : option string) (uuid : string) (e : Exn) (st : State) :
  attempt st data = inl e ->
  has_line_break (default uuid ext) = false ->
  has_line_break uuid = false ->
  sound st ->
  let p := length (promises st) in
  publish subject data reply st = (Throw e, set_privateKey (key_cache st) st) /\
  exists e', (e' = e \/ e' = BadHeader) /\
  (let st1 := snd (sendMessage subject data true ext uuid st) in
   fst (sendMessage subject data true ext uuid st) = Return p /\
   state_of (promises st1) p = Some Pending /\
   responseCallbacksMap st1 !! (default uuid ext) = Some (SendCallback p) /\
   trace st1 = (trace st ++ [EUnhandledRejection e'])%list /\
   forall evs, quiet (default uuid ext) evs st1 = true ->
     responseCallbacksMap (run evs st1) !! (default uuid ext) = Some (SendCallback p) /\
     state_of (promises (run evs st1)) p = Some Pending) /\
  (let st1 := snd (sendMessage subject data false ext uuid st) in
   fst (sendMessage subject data false ext uuid st) = Return p /\
   state_of (promises st1) p = Some (Fulfilled VNull) /\
   responseCallbacksMap st1 = responseCallbacksMap st /\
   trace st1 = (trace st ++ [EUnhandledRejection e'])%list) /\
  (let st1 := snd (sendRawMessage subject data uuid st) in
   fst (sendRawMessage subject data uuid st) = Return p /\
   state_of (promises st1) p = Some Pending /\
   responseCallbacksMap st1 !! uuid = Some (RawCallback p) /\
   trace st1 = (trace st ++ [EUnhandledRejection e'])%list /\
   forall evs, quiet uuid evs st1 = true ->
     responseCallbacksMap (run evs st1) !! uuid = Some (RawCallback p) /\
     state_of (promises (run evs st1)) p = Some Pending).
Proof.
  intros Hfail Hid Huuid Hsound p. subst p.
  split; [by rewrite publish_spec, Hfail |].
  destruct (attempt_send_failure st data e Hfail) as (e' & He' & Hsend).
  exists e'. split; [exact He' |].
  assert (Hstays : forall k cb s evs,
            sound s -> responseCallbacksMap s !! k = Some cb ->
            quiet k evs s = true ->
            responseCallbacksMap (run evs s) !! k = Some cb /\
            state_of (promises (run evs s)) (callback_promise cb) = Some Pending).
  { intros k cb s evs Hs Hk Hq.
    assert (Hk' : responseCallbacksMap (run evs s) !! k = Some cb)
      by (by rewrite (entry_run k evs s Hq)).
    split; [exact Hk' |].
    exact (co_waiting _ _ _ (consistent_run evs s Hs) k cb Hk'). }
  split; [| split].
  - pose proof (sound_step (CallSendMessage subject data true ext uuid) st Hsound) as Hs1.
    unfold step in Hs1. revert Hs1.
    rewrite sendMessage_spec, (hdr_append_clean _ _ _ Hid), Hsend. unfold prepared.
    cbn [snd fst sent_state]. intros Hs1.
    split; [reflexivity |]. split; [apply state_of_fresh |].
    split; [apply lookup_insert_eq |]. split; [reflexivity |].
    intros evs Hq.
    refine (Hstays (default uuid ext) (SendCallback (length (promises st))) _ evs Hs1 _ Hq).
    apply lookup_insert_eq.
  - rewrite sendMessage_spec, (hdr_append_clean _ _ _ Hid), Hsend. unfold prepared.
    cbn [snd fst sent_state]. split; [reflexivity |].
    split; [apply settle_pending; [discriminate | apply state_of_fresh] |].
    split; reflexivity.
  - pose proof (sound_step (CallSendRawMessage subject data uuid) st Hsound) as Hs1.
    unfold step in Hs1. revert Hs1.
    rewrite sendRawMessage_spec, (hdr_append_clean _ _ _ Huuid), Hsend.
    cbn [snd fst sent_state]. intros Hs1.
    split; [reflexivity |]. split; [apply state_of_fresh |].
    split; [apply lookup_insert_eq |]. split; [reflexivity |].
    intros evs Hq.
    refine (Hstays uuid (RawCallback (length (promises st))) _ evs Hs1 _ Hq).
    apply lookup_insert_eq.
Qed.

(** C8: a [sendMessageWithTimeout] under an id that the headers carry
    as it is registers its callback and publishes the request. Whatever
    happens then that leaves the entry of the id alone (no resumption of
    a reply under the id, no timer of the id, no registration under the
    id), the entry is in the table and the returned promise is pending.
    When the timer fires first, the entry is removed and the returned
    promise is rejected with the error "Timeout exceed (<subject>)";
    the rejection stands whatever happens later, and a reply delivered
    after that finds no entry and changes nothing. When a reply is
    through first, the returned promise is settled with the outcome of
    the reply and the entry is removed; the settlement stands whatever
    happens later, and the timer, firing then, leaves the table and the
    promise as they are. A promise once settled keeps its state, and a
    timer that fires for an id without entry leaves the table as it
    is. *)
Theorem timeout_evicts_and_rejects (st : State) (subject : string) (timeout : Z)
  (data : JsVal) (uuid : string) (evs : list Event) :
  bounded (responseCallbacksMap st) (promises st) (timers st) ->
  bounded_runs (promises st) (suspended st) ->
  plain uuid = true ->
  quiet uuid evs (snd (sendMessageWithTimeout subject timeout data uuid st)) = true ->
  let p1 := length (promises st) in
  let p := S (S p1) in
  let n := length (timers st) in
  let sent := snd (sendMessageWithTimeout subject timeout data uuid st) in
  let waiting := run evs sent in
  let expired := step (TimerFires n) waiting in
  let failure := Rejected (ErrorObj ("Timeout exceed (" ++ subject ++ ")")) in
  fst (sendMessageWithTimeout subject timeout data uuid st) = Return p /\
  (forall head payload,
     attempt_send st data [("messageId", uuid)] = inr (head, payload) ->
     trace sent
     = (trace st ++ [EPublish subject payload
                       {| opt_serviceToken := None; opt_reply := Some (replySubject st);
                          opt_headers := Some head |}])%list /\
     hdr_get head "messageId" = uuid) /\
  responseCallbacksMap waiting !! uuid = Some (SendCallback p1) /\
  state_of (promises waiting) p = Some Pending /\
  responseCallbacksMap expired !! uuid = None /\
  state_of (promises expired) p = Some failure /\
  (forall later, state_of (promises (run later expired)) p = Some failure) /\
  (forall msg h, msg_headers msg = Some h -> hdr_get h "messageId" = uuid ->
     step (Reply None msg) expired = expired) /\
  (forall msg h message,
     msg_headers msg = Some h -> hdr_get h "messageId" = uuid ->
     decode (msg_data msg) = Return message ->
     let o := reply_outcome (SendCallback p1) message
                (JwtValidator.verify (hdr_get h "serviceToken") (secretManager waiting)) in
     let replied := run [Reply None msg; Resume (length (suspended waiting));
                         Resume (length (suspended waiting))] waiting in
     o <> Pending /\
     state_of (promises replied) p = Some o /\
     responseCallbacksMap replied !! uuid = None /\
     (forall later, state_of (promises (run later replied)) p = Some o) /\
     responseCallbacksMap (step (TimerFires n) replied) = responseCallbacksMap replied /\
     state_of (promises (step (TimerFires n) replied)) p = Some o) /\
  (forall (s : State) (q : nat) (o : PState) (later : list Event),
     state_of (promises s) q = Some o -> o <> Pending ->
     state_of (promises (run later s)) q = Some o) /\
  (forall (s : State) (j : nat) (t : Timer),
     timers s !! j = Some (Some t) ->
     responseCallbacksMap s !! t_messageId t = None ->
     responseCallbacksMap (step (TimerFires j) s) = responseCallbacksMap s).
Proof.
  intros Hb Hbr Hplain Hquiet p1 p n sent waiting expired failure.
  assert (Hclean : has_line_break uuid = false).
  { unfold plain in Hplain. apply andb_true_iff in Hplain as [Hl _].
    by apply negb_true_iff in Hl. }
  destruct (sendMessageWithTimeout_spec subject timeout data uuid st)
    as (Hret & Hm & Hps & Hts & Hss & Htr).
  cbv zeta in Hret, Hm, Hps, Hts, Hss, Htr. rewrite Hclean in Hm.
  fold sent in Hm, Hps, Hts, Hss, Htr. fold p1 in Hret, Hm, Hps, Hts.
  assert (Hstart : awaiting uuid subject timeout n p1 (S p1) p
                     (responseCallbacksMap sent) (promises sent) (timers sent)).
  { rewrite Hm, Hps, Hts.
    refine (awaiting_established uuid
              {| t_messageId := uuid; t_subject := subject;
                 t_promise := S p1; t_delay := timeout |}
              (responseCallbacksMap st) (promises st) (timers st) _ _ _ _ Hb).
    by constructor. }
  assert (Hapart : apart uuid [p1; S p1; p] (suspended sent)).
  { rewrite Hss. intros j r Hj Hin. specialize (Hbr j r Hj). fold p1 in Hbr.
    exfalso. repeat (apply elem_of_cons in Hin as [Hin | Hin]); try (subst p; lia).
    by apply elem_of_nil in Hin. }
  pose proof (awaiting_run _ _ _ _ _ _ _ evs _ Hquiet Hstart Hapart) as Hwait.
  change (awaiting uuid subject timeout n p1 (S p1) p
            (responseCallbacksMap waiting) (promises waiting) (timers waiting)) in Hwait.
  destruct Hwait as [W1 W2 W3 Wt (P2 & HP2 & Hin) _ _ _].
  assert (Hentry : responseCallbacksMap waiting !! uuid = Some (SendCallback p1)).
  { subst waiting. rewrite (entry_run uuid evs sent Hquiet), Hm. apply lookup_insert_eq. }
  destruct (timed_follows subject timeout data uuid st) as [HP1 _].
  fold sent p1 in HP1.
  destruct (racers_kept_run evs sent p1 p _ HP1 ltac:(apply list_elem_of_here))
    as (P1 & HP1' & Hin1).
  fold waiting in HP1'.
  assert (Hfire : responseCallbacksMap expired = delete uuid (responseCallbacksMap waiting) /\
                  promises expired = settle (S p1) failure (promises waiting)).
  { subst expired. unfold step. exec. fold n. rewrite Wt. simpl. auto. }
  destruct Hfire as [Em Ep].
  assert (Hrej : state_of (promises expired) p = Some failure).
  { rewrite Ep.
    eapply (settle_racer failure); [discriminate | exact HP2 | | exact Hin | exact W3].
    unfold state_of in W2. rewrite HP2 in W2. simpl in W2. congruence. }
  assert (Hgone : responseCallbacksMap expired !! uuid = None).
  { rewrite Em. apply lookup_delete_eq. }
  assert (Hidle : forall (s : State) (j : nat) (t : Timer),
            timers s !! j = Some (Some t) ->
            responseCallbacksMap s !! t_messageId t = None ->
            responseCallbacksMap (step (TimerFires j) s) = responseCallbacksMap s).
  { intros s j t Hj Hnone. unfold step. exec. rewrite Hj. simpl. by apply delete_id. }
  split; [exact Hret |].
  split.
  { intros head payload Hok. rewrite Htr, sendMessage_spec. cbn [default from_option id snd].
    rewrite (hdr_append_plain _ _ _ Hplain). simpl app. rewrite Hok. simpl.
    split; [reflexivity |].
    revert Hok. unfold attempt_send.
    destruct (JwtValidator.sign _ _) as [[token | e0] pk]; simpl; [| discriminate].
    rewrite hdr_append_cases. destruct (has_line_break token); [discriminate |].
    destruct (connection st) as [cn |]; [| discriminate].
    destruct (encode data) as [pl | e1]; [| discriminate].
    destruct (publish_failure cn); [discriminate |].
    intros [= <- _]. simpl. reflexivity. }
  split; [exact Hentry |]. split; [exact W3 |]. split; [exact Hgone |].
  split; [exact Hrej |].
  split; [intros later; apply settled_run; [exact Hrej | discriminate] |].
  split.
  { intros msg h Hh Hid. rewrite deliver_spec, Hh, Hid, Hgone. reflexivity. }
  split.
  { intros msg h message Hh Hid Hdec o replied.
    rewrite <- Hid in Hentry.
    destruct (reply_settles waiting msg h (SendCallback p1) message Hh Hentry Hdec)
      as (_ & Rm & Rp & Rt & _).
    fold replied in Rm, Rp, Rt. fold o in Rp. rewrite Hid in Rm.
    assert (Ho : o <> Pending) by apply reply_outcome_settled.
    assert (Hnow : state_of (promises replied) p = Some o).
    { rewrite Rp.
      eapply (settle_racer o); [exact Ho | exact HP1' | | exact Hin1 | exact W3].
      unfold state_of in W1. rewrite HP1' in W1. simpl in W1. congruence. }
    assert (Rgone : responseCallbacksMap replied !! uuid = None).
    { rewrite Rm. apply lookup_delete_eq. }
    split; [exact Ho |]. split; [exact Hnow |]. split; [exact Rgone |].
    split; [intros later; by apply settled_run |].
    split.
    - apply (Hidle replied n {| t_messageId := uuid; t_subject := subject;
                                t_promise := S p1; t_delay := timeout |});
        [by rewrite Rt | exact Rgone].
    - by apply settled_step. }
  split; [intros s q o later; apply settled_run | exact Hidle].
Qed.

(** C10: a reply for the pending entry of a waiting caller whose decoded
    payload is falsy calls the stored callback with [null] and nothing
    else, which resolves the caller's promise with [null], and removes
    the entry; the token is not verified, whatever it is. The listener
    verifies a token only for a payload that is truthy. *)
Theorem falsy_reply_skips_verification (st : State) (msg : Msg) (h : Headers)
  (cb : Callback) (message : JsVal) :
  msg_headers msg = Some h ->
  responseCallbacksMap st !! hdr_get h "messageId" = Some cb ->
  state_of (promises st) (callback_promise cb) = Some Pending ->
  decode (msg_data msg) = Return message ->
  truthy message = false ->
  (exists st1,
     init_callback None msg st = (Return tt, st1) /\
     trace st1 = (trace st ++
       [ECallback (hdr_get h "messageId") cb VNull VUndefined VUndefined])%list /\
     responseCallbacksMap st1 = delete (hdr_get h "messageId") (responseCallbacksMap st) /\
     state_of (promises st1) (callback_promise cb) = Some (Fulfilled VNull)) /\
  (forall (error : option Exn) (any : Msg) (s : State),
     existsb is_verify (effects_of (init_callback error any) s) = true ->
     exists payload, decode (msg_data any) = Return payload /\ truthy payload = true).
Proof.
  intros Hh Hcb Hwait Hdec Hf. split.
  - destruct (init_callback_falsy st msg h cb message Hh Hcb Hdec Hf)
      as (st1 & Hrun & Htr & Hmap & Hps).
    exists st1. repeat split; try assumption.
    rewrite Hps. by apply apply_callback_resolves.
  - intros error any s. unfold effects_of.
    destruct error as [err |].
    { simpl. rewrite drop_app_length. discriminate. }
    destruct (msg_headers any) as [h' |] eqn:Hh'.
    2:{ exec. rewrite Hh'. simpl. rewrite drop_all. discriminate. }
    destruct (responseCallbacksMap s !! hdr_get h' "messageId") as [cb' |] eqn:Hcb'.
    2:{ rewrite (init_callback_absent s any h' Hh' Hcb'). simpl.
        rewrite drop_all. discriminate. }
    destruct (decode (msg_data any)) as [payload | e] eqn:Hdec'.
    2:{ rewrite (init_callback_undecodable s any h' cb' e Hh' Hcb' Hdec'). simpl.
        rewrite drop_all. discriminate. }
    destruct (truthy payload) eqn:Ht; [eauto |].
    destruct (init_callback_falsy s any h' cb' payload Hh' Hcb' Hdec' Ht)
      as (s1 & Hrun & Htr & _).
    rewrite Hrun. simpl. rewrite Htr, drop_app_length. discriminate.
Qed.

End Settlement.

(** * Closed instances

    The theorems above at the concrete collaborators of [Fixture], and the
    inputs on which the code departs from a claim. *)

#[local] Existing Instance Fixture.plain_codec.
#[local] Existing Instance Fixture.table_jwt.
#[local] Existing Instance Fixture.policy_env.

Import Fixture.

(** The instances of [Fixture] are reached from a new instance. *)
Lemma service_sound : sound service.
Proof. apply sound_run, sound_new. Qed.

Lemma keyless_service_sound : sound keyless_service.
Proof. apply sound_run, sound_new. Qed.

(** C1, counterexample: with no secret store configured, [verify] accepts
    a token that names the billing service and that the billing service's
    public key does not validate, and returns the empty identity, which
    is not the token's [sub]; with a store, it accepts the empty token in
    the same way. *)
Lemma verify_without_store_accepts :
  JwtValidator.verify "tok-billing" None = Return (VStr "") /\
  opt_member (jwt_decode "tok-billing") "sub" = VStr "billing-service" /\
  jwt_verify "tok-billing" "billing-public" = Throw (Raised (VStr "invalid signature")) /\
  JwtValidator.verify "" (Some store) = Return (VStr "").
Proof. repeat split. Qed.

(** C1 at the store of [Fixture]: the policy service's token is accepted
    under its own name, the billing token is refused; without the store
    the billing token is accepted, and so is the empty token with it. *)
Lemma verify_binds_signer_witness :
  JwtValidator.verify "tok-policy" (Some store) = Return (VStr "policy-service") /\
  VStr "policy-service" = opt_member (jwt_decode "tok-policy") "sub" /\
  (exists e, JwtValidator.verify "tok-billing" (Some store) = Throw e) /\
  JwtValidator.verify "tok-billing" None = Return (VStr "") /\
  JwtValidator.verify "" (Some store) = Return (VStr "").
Proof.
  split; [reflexivity |]. split; [| split; [| split]].
  - apply (proj1 (proj1 (verify_binds_signer store "tok-policy") ltac:(discriminate))).
    reflexivity.
  - apply (proj2 (proj1 (verify_binds_signer store "tok-billing") ltac:(discriminate))
             "billing-public"); [reflexivity |].
    intros payload. discriminate.
  - exact (proj1 (proj2 (verify_binds_signer store "tok-billing")) "tok-billing").
  - exact (proj2 (proj2 (verify_binds_signer store "tok-billing"))).
Defined.

(** The token package of [Fixture] is a signature scheme for its one key
    pair. *)
Lemma table_jwt_sign_verify (payload : JsVal) (priv pub token : string) :
  table_keypair priv pub ->
  jwt_sign payload priv = Return token ->
  token <> "" /\
  opt_member (jwt_decode token) "sub" = opt_member payload "sub" /\
  exists verified,
    jwt_verify token pub = Return verified /\
    member verified "sub" = Return (opt_member payload "sub").
Proof.
  intros [-> ->]. simpl.
  destruct (strict_eq (opt_member payload "sub") (VStr "policy-service")) eqn:E;
    simpl; [| discriminate].
  intros [= <-]. apply strict_eq_true in E. rewrite E.
  split; [discriminate |]. split; [reflexivity |].
  eexists. split; reflexivity.
Qed.

(** C5 at the store of [Fixture]. *)
Lemma token_round_trip_witness :
  JwtValidator.sign (Some store) None = (Return "tok-policy", Some "policy-private") /\
  JwtValidator.verify "tok-policy" (Some store) = Return (VStr "policy-service") /\
  JwtValidator.verify "tok-billing" (Some store)
  = Throw (ErrorObj "JWTValidator: invalid or expired token").
Proof.
  pose proof (@token_round_trip table_jwt policy_env table_keypair table_jwt_sign_verify
                store store None "tok-policy" "policy-private" "policy-public"
                ltac:(vm_compute; discriminate) eq_refl (conj eq_refl eq_refl) eq_refl) as [Hok Hbad].
  split; [reflexivity |]. split; [exact Hok |].
  apply (Hbad store "tok-billing" "billing-public");
    [discriminate | reflexivity | reflexivity | intros payload; discriminate].
Defined.

(** C2, the failing input and what the code does there. *)
Lemma publish_token_outside_headers_witness :
  attempt service ping = inr ("tok-policy", ping) /\
  exists opts,
    publish "svc.y" ping None service
    = (Return tt, set_trace (trace service ++ [EPublish "svc.y" ping opts])
                    (set_privateKey (key_cache service) service)) /\
    opt_serviceToken opts = Some "tok-policy" /\
    opt_headers opts = None /\
    received_header (envelope "svc.y" ping opts) "serviceToken" = None /\
    forall (cb : Handler) (receiver : State),
      subscribe_callback cb (envelope "svc.y" ping opts) receiver
      = (Return tt,
         set_trace (trace receiver ++ [EConsoleError [LogVal (exn_message TypeError)]])
           receiver).
Proof.
  split; [reflexivity |].
  exact (publish_token_outside_headers "svc.y" ping None "tok-policy" ping service eq_refl).
Defined.

(** C3, counterexample: with the allow-list ["svc.allowed"], [publish] on
    "svc.denied" is not refused: it returns normally and the message is
    handed to the transport. *)
Lemma publish_outside_allow_list :
  availableEvents restricted_service = Some ["svc.allowed"] /\
  not_available restricted_service "svc.denied" = true /\
  fst (publish "svc.denied" ping None restricted_service) = Return tt /\
  effects_of (publish "svc.denied" ping None) restricted_service
  = [EPublish "svc.denied" ping
       {| opt_serviceToken := Some "tok-policy"; opt_reply := None; opt_headers := None |}].
Proof. repeat split. Qed.



(** C6 at the instance whose store has no private key, so that signing
    fails: [publish] is rejected with the error; the promise that
    [sendMessage] returned is still pending, not rejected, the error is
    an unhandled rejection, and the callback registered under "id-1" is
    in the table, also after an unrelated publish, an unrelated reply
    and a timer that is not set. *)
Lemma send_failure_keeps_entry_witness :
  attempt keyless_service ping
  = inl (ErrorObj "JWTValidator: no privateKey at secretkey/jwt-service/policy-service") /\
  publish "svc.y" ping None keyless_service
  = (Throw (ErrorObj "JWTValidator: no privateKey at secretkey/jwt-service/policy-service"),
     set_privateKey (key_cache keyless_service) keyless_service) /\
  fst (sendMessage "svc.y" ping true None "id-1" keyless_service) = Return 0%nat /\
  state_of (promises (snd (sendMessage "svc.y" ping true None "id-1" keyless_service))) 0
  = Some Pending /\
  trace (snd (sendMessage "svc.y" ping true None "id-1" keyless_service))
  = (trace keyless_service ++
     [EUnhandledRejection
        (ErrorObj "JWTValidator: no privateKey at secretkey/jwt-service/policy-service")])%list /\
  responseCallbacksMap
    (run [CallPublish "svc.z" ping None; Reply None (reply_to "id-7" "tok-policy" pong);
          TimerFires 0]
       (snd (sendMessage "svc.y" ping true None "id-1" keyless_service)))
    !! "id-1" = Some (SendCallback 0) /\
  state_of
    (promises
       (run [CallPublish "svc.z" ping None; Reply None (reply_to "id-7" "tok-policy" pong);
             TimerFires 0]
          (snd (sendMessage "svc.y" ping true None "id-1" keyless_service)))) 0
  = Some Pending.
Proof.
  pose proof (send_failure_keeps_entry "svc.y" ping None None "id-1" _ keyless_service
                eq_refl eq_refl eq_refl keyless_service_sound) as Hthm.
  cbv zeta in Hthm.
  destruct Hthm as (Hpub & e' & _ & (Hret & Hpend & _ & _ & Hstays) & _).
  split; [reflexivity |]. split; [exact Hpub |]. split; [exact Hret |].
  split; [exact Hpend |]. split; [reflexivity |].
  exact (Hstays [CallPublish "svc.z" ping None; Reply None (reply_to "id-7" "tok-policy" pong);
                 TimerFires 0] eq_refl).
Defined.

(** C7, counterexample: a reply whose token [verify] refuses does not
    always reject the caller with the code 401. A caller waiting through
    [sendRawMessage] is rejected with the bare message, a string, which
    has no code; and a reply with a [null] payload and the same token
    resolves the caller of [sendMessage] with [null]: nothing is
    verified, nothing is logged, nobody is rejected. *)
Lemma invalid_reply_without_401 :
  JwtValidator.verify "tok-billing" (Some store)
  = Throw (ErrorObj "JWTValidator: invalid or expired token") /\
  responseCallbacksMap sent_raw !! "id-1" = Some (RawCallback 0) /\
  state_of (promises sent_raw) 0 = Some Pending /\
  state_of (promises (run [Reply None forged; Resume 0; Resume 0] sent_raw)) 0
  = Some (Rejected (Raised (VStr "JWTValidator: invalid or expired token"))) /\
  responseCallbacksMap sent !! "id-1" = Some (SendCallback 0) /\
  state_of (promises sent) 0 = Some Pending /\
  trace (run [Reply None empty_reply; Resume 0; Resume 0] sent)
  = (trace sent ++ [ECallback "id-1" (SendCallback 0) VNull VUndefined VUndefined])%list /\
  state_of (promises (run [Reply None empty_reply; Resume 0; Resume 0] sent)) 0
  = Some (Fulfilled VNull).
Proof. repeat split. Qed.

(** C7 at a request sent with [sendMessageWithTimeout] and a reply whose
    token does not verify: the promise that the caller holds, the race,
    is rejected with a [MessageError] of code 401, and the entry is
    removed. *)
Lemma invalid_reply_rejects_caller_witness :
  fst (sendMessageWithTimeout "svc.y" 50 ping "id-1" service) = Return 2%nat /\
  state_of (promises sent_timed) 2 = Some Pending /\
  state_of (promises (run [Reply None forged; Resume 0; Resume 0] sent_timed)) 2
  = Some (Rejected (MessageError (VStr "JWTValidator: invalid or expired token") (VNum 401))) /\
  responseCallbacksMap (run [Reply None forged; Resume 0; Resume 0] sent_timed) !! "id-1"
  = None.
Proof.
  pose proof (invalid_reply_rejects_caller sent_timed forged
                [("messageId", "id-1"); ("serviceToken", "tok-billing")] (SendCallback 0)
                pong (ErrorObj "JWTValidator: invalid or expired token")
                eq_refl eq_refl eq_refl eq_refl eq_refl eq_refl) as Hthm.
  cbv zeta in Hthm.
  destruct Hthm as ((st1 & _ & Hloop & _ & Hmap & _ & Hrace) & Htimed).
  destruct (Htimed service "svc.y" 50 ping "id-1" eq_refl) as (Hret & _).
  split; [exact Hret |]. split; [reflexivity |].
  change (run [Reply None forged; Resume 0; Resume 0] sent_timed)
    with (run [Reply None forged; Resume (length (suspended sent_timed));
               Resume (length (suspended sent_timed))] sent_timed).
  rewrite Hloop. cbn [promises responseCallbacksMap set_suspended]. split.
  - apply (Hrace {| pstate := Pending; racers := [2%nat] |} 2%nat eq_refl);
      [apply list_elem_of_here | reflexivity].
  - rewrite Hmap. apply lookup_delete_eq.
Defined.

(** C8 at a timed request with an unrelated publish and the delivery of
    an unrelated reply while it waits: the request is published and its
    callback registered; then the timer first, and the reply first. *)
Lemma timeout_evicts_and_rejects_witness :
  fst (sendMessageWithTimeout "svc.y" 50 ping "id-1" service) = Return 2%nat /\
  trace sent_timed
  = (trace service ++
     [EPublish "svc.y" ping
        {| opt_serviceToken := None; opt_reply := Some "policy-reply";
           opt_headers := Some [("messageId", "id-1"); ("serviceToken", "tok-policy")] |}])%list /\
  responseCallbacksMap (run meanwhile sent_timed) !! "id-1" = Some (SendCallback 0) /\
  state_of (promises (run meanwhile sent_timed)) 2 = Some Pending /\
  responseCallbacksMap (step (TimerFires 0) (run meanwhile sent_timed)) !! "id-1" = None /\
  state_of (promises (step (TimerFires 0) (run meanwhile sent_timed))) 2
  = Some (Rejected (ErrorObj "Timeout exceed (svc.y)")) /\
  step (Reply None genuine) (step (TimerFires 0) (run meanwhile sent_timed))
  = step (TimerFires 0) (run meanwhile sent_timed) /\
  state_of (promises (run [Reply None genuine; Resume 0; Resume 0]
                        (run meanwhile sent_timed))) 2
  = Some (Fulfilled (VObj [("op", VStr "pong")])) /\
  state_of (promises (run [Reply None genuine; Resume 0; Resume 0; TimerFires 0]
                        (run meanwhile sent_timed))) 2
  = Some (Fulfilled (VObj [("op", VStr "pong")])).
Proof.
  pose proof (timeout_evicts_and_rejects service "svc.y" 50 ping "id-1" meanwhile
                (so_tables _ service_sound).(co_bounded _ _ _)
                (so_bounded _ service_sound) eq_refl eq_refl) as Hthm.
  cbv zeta in Hthm.
  destruct Hthm as (Hret & Hsent & Hentry & Hwait & Hgone & Hrej & _ & Hlate & Hreply & _).
  split; [exact Hret |].
  split; [exact (proj1 (Hsent _ _ eq_refl)) |].
  split; [exact Hentry |]. split; [exact Hwait |]. split; [exact Hgone |].
  split; [exact Hrej |]. split; [exact (Hlate genuine _ eq_refl eq_refl) |].
  destruct (Hreply genuine _ pong eq_refl eq_refl eq_refl) as (_ & Hnow & _ & _ & _ & Hfire).
  split; [exact Hnow | exact Hfire].
Defined.

(** C9 at the allow-list ["svc.allowed"] and a request on "svc.denied",
    and at the same request with no allow-list. *)
Lemma inbound_access_control_witness :
  getMessages_callback "svc.denied" echo false request restricted_service
  = (Return tt,
     set_trace (trace restricted_service
                ++ [ERespond request forbidden_response [("messageId", "id-9")]])
       restricted_service) /\
  getMessages_try "svc.denied" echo true request restricted_service
  = (Throw ForbiddenException, restricted_service) /\
  effects_of (getMessages_callback "svc.denied" echo false request) service
  = [EVerify "tok-policy"; EHandler ping (msg_headers request);
     ERespond request ping [("messageId", "id-9")]].
Proof.
  destruct (inbound_access_control restricted_service "svc.denied" echo request)
    as (Hhead & _).
  destruct (Hhead [("messageId", "id-9")] eq_refl) as (_ & Hdenied).
  destruct (Hdenied ["svc.allowed"] eq_refl) as (Hrespond & Hthrow & _).
  { intros Hin. apply list_elem_of_singleton in Hin. discriminate. }
  split; [exact Hrespond |]. split; [exact Hthrow | reflexivity].
Defined.

(** C10 at a reply with a [null] payload and a token that would not
    verify. *)
Lemma falsy_reply_skips_verification_witness :
  JwtValidator.verify "tok-billing" (secretManager sent)
  = Throw (ErrorObj "JWTValidator: invalid or expired token") /\
  effects_of (init_callback None empty_reply) sent
  = [ECallback "id-1" (SendCallback 0) VNull VUndefined VUndefined] /\
  state_of (promises (snd (init_callback None empty_reply sent))) 0 = Some (Fulfilled VNull).
Proof.
  destruct (falsy_reply_skips_verification sent empty_reply
              [("messageId", "id-1"); ("serviceToken", "tok-billing")] (SendCallback 0) VNull
              eq_refl eq_refl eq_refl eq_refl eq_refl)
    as ((st1 & Hrun & Htr & _ & Hps) & _).
  split; [reflexivity |]. split; [reflexivity |].
  rewrite Hrun. exact Hps.
Defined.
